(** * Orders micro-service with a transactional outbox

    A shallow embedding of the source files of the repository:

    - [index.js]: the handlers of [POST /orders] and [GET /orders/:id], and
      the Mongoose schemas of the three collections (Order, OrderItem,
      OutboxEvent) with their validators and defaults;
    - the outbox worker: [publish] and the callback that [run] hands to
      [setInterval];
    - [db.js]: [startSession].

    Modelling choices, made once and used everywhere:

    - a JavaScript Number is an IEEE 754 binary64 value ([float]);
      [Math.round] follows ECMAScript (nearest integer, the one towards
      +infinity on a tie);
    - a collection is a finite map from [_id] to the stored record (the unique
      index on [_id]); inserting under an existing [_id] is a duplicate-key
      error;
    - every awaited store call either takes effect or rejects without effect;
      an environment record chooses which calls reject and with what, so the
      theorems quantify over all failure patterns;
    - a session with a transaction works on a snapshot of the store; commit
      installs the snapshot, abort drops it;
    - a handler runs from its start to its end without another one in
      between; so do the callbacks of the worker in [ticks] and [steps], the
      runs in which every callback ends before the next one starts.
      [setInterval] does not wait for a callback to end: [overlapping] is the
      run of two callbacks of which the first is suspended after its batch
      read while the second runs;
    - logging and [res.json] do not throw;
    - the schema option [timestamps: true] is modelled: [createdAt] and
      [updatedAt] are set when a document is created, and every [updateOne]
      that writes sets [updatedAt] again.  The other bookkeeping of the ODM
      ([__v], the ids of the sub-documents of [itemsSummary]) is left out:
      no code path reads it, and the body of [GET /orders/:id] is given
      without these fields. *)

From Stdlib Require Import Floats ZArith QArith Qround Qabs Ascii String.
From stdpp Require Import gmap strings list sorting.

Set Warnings "-register-all,-inexact-float".

Local Open Scope string_scope.
Local Open Scope list_scope.

(** ** JavaScript values *)

Module JS.

(** [2^52]: from here on every binary64 value is an integer. *)
Definition two52 : float := 4503599627370496%float.

Definition finite (x : float) : bool := negb (is_nan x || is_infinity x).

(** Round to an integer in the current (nearest-even) mode, for [|x| < 2^52]. *)
Definition rint (x : float) : float :=
  if (x <? 0)%float then ((x - two52) + two52)%float
  else ((x + two52) - two52)%float.

(** [Math.floor]. *)
Definition Math_floor (x : float) : float :=
  if negb (finite x) || (two52 <=? abs x)%float then x
  else
    let r := rint x in
    if (r =? x)%float then x
    else if (x <? r)%float then (r - 1)%float else r.

(** [Math.round]: not finite or integral: [x] itself; in [[-0.5, 0)]: [-0];
    otherwise the nearest integer, the one towards +infinity on a tie. *)
Definition Math_round (x : float) : float :=
  if negb (finite x) then x
  else
    let f := Math_floor x in
    if (f =? x)%float then x
    else if (x <? 0)%float && (-0.5 <=? x)%float then (-0)%float
    else if (0.5 <=? x - f)%float then (f + 1)%float else f.

(** The idiom of the handler: [Math.round(x * 100) / 100]. *)
Definition round2 (x : float) : float := (Math_round (x * 100) / 100)%float.

(** A JSON document: what [res.json] sends and what a field of schema type
    [Object] stores.  Object keys keep their insertion order.  A stored
    document keeps every Number as it is; [res.json] sends a Number through
    [json_number]. *)
Inductive JSON : Type :=
| JNull
| JNum (x : float)
| JStr (s : string)
| JDate (ms : Z)
| JArr (l : list JSON)
| JObj (fields : list (string * JSON)).

(** A Number in a body sent by [res.json], which is [JSON.stringify]: a
    Number that is not finite is sent as [null], and [-0] as [0]. *)
Definition json_number (x : float) : JSON :=
  if finite x then (if (x =? 0)%float then JNum 0%float else JNum x) else JNull.

(** A value that was thrown, or with which a promise rejected. *)
Inductive Thrown : Type :=
| ThrownError (name message : string)   (* an Error object *)
| ThrownString (s : string)
| ThrownUndefined
| ThrownNull.

(** [String(err)] for the values above ([Error.prototype.toString]). *)
Definition String_of_Thrown (err : Thrown) : string :=
  match err with
  | ThrownError name "" => name
  | ThrownError "" message => message
  | ThrownError name message => name ++ ": " ++ message
  | ThrownString s => s
  | ThrownUndefined => "undefined"
  | ThrownNull => "null"
  end.

(** [String(err?.message || err)]: the message when it is a non-empty
    string, else the string form of the thrown value. *)
Definition message_or_String (err : Thrown) : string :=
  match err with
  | ThrownError _ "" => String_of_Thrown err
  | ThrownError _ message => message
  | _ => String_of_Thrown err
  end.

(** Outcome of awaiting a promise. *)
Inductive Awaited (A : Type) : Type :=
| Fulfilled (a : A)
| Rejected (err : Thrown).
Arguments Fulfilled {A} a.
Arguments Rejected {A} err.

End JS.
Import JS.


(** ** The data model: the Mongoose schemas of index.js *)

Module Model.

(** A 12-byte [ObjectId], as a number. *)
Definition ObjectId : Type := N.

Definition hex_digit (d : N) : ascii :=
  match d with
  | 0%N => "0" | 1%N => "1" | 2%N => "2" | 3%N => "3" | 4%N => "4"
  | 5%N => "5" | 6%N => "6" | 7%N => "7" | 8%N => "8" | 9%N => "9"
  | 10%N => "a" | 11%N => "b" | 12%N => "c" | 13%N => "d" | 14%N => "e"
  | _ => "f"
  end%char.

Fixpoint hex_digits (width : nat) (n : N) (acc : string) : string :=
  match width with
  | O => acc
  | S w => hex_digits w (n / 16)%N (String (hex_digit (n mod 16)%N) acc)
  end.

(** [String(id)]: the 24 lower-case hexadecimal digits of the id. *)
Definition String_of_ObjectId (id : ObjectId) : string := hex_digits 24 id "".

Definition hex_value (c : ascii) : option N :=
  let n := N_of_ascii c in
  if ((48 <=? n) && (n <=? 57))%N then Some (n - 48)%N
  else if ((97 <=? n) && (n <=? 102))%N then Some (n - 87)%N
  else if ((65 <=? n) && (n <=? 70))%N then Some (n - 55)%N
  else None.

Fixpoint parse_hex (s : string) (acc : N) : option N :=
  match s with
  | EmptyString => Some acc
  | String c s' =>
      match hex_value c with
      | Some d => parse_hex s' (acc * 16 + d)%N
      | None => None
      end
  end.

(** The cast Mongoose applies to a string used as an [_id] in a query: a
    string of 24 hexadecimal digits is an id, any other string is a
    [CastError]. *)
Definition castObjectId (s : string) : option ObjectId :=
  if Nat.eqb (String.length s) 24 then parse_hex s 0%N else None.

(** A stored document without its key: the two times (ms since epoch) that
    [timestamps: true] adds, and the fields of the schema. *)
Record Stored (A : Type) : Type := mkStored {
  st_createdAt : Z;
  st_updatedAt : Z;
  st_fields : A
}.
Arguments mkStored {A} _ _ _.
Arguments st_createdAt {A} s.
Arguments st_updatedAt {A} s.
Arguments st_fields {A} s.

(** A document as the program sees it: the [_id] with what is stored under
    it. *)
Definition Doc (A : Type) : Type := (ObjectId * Stored A)%type.

(** A new document: [createdAt] and [updatedAt] are the time of its
    creation. *)
Definition mkDoc {A : Type} (id : ObjectId) (now : Z) (f : A) : Doc A :=
  (id, mkStored now now f).
Definition _id {A : Type} (d : Doc A) : ObjectId := fst d.
Definition createdAt {A : Type} (d : Doc A) : Z := st_createdAt (snd d).
Definition updatedAt {A : Type} (d : Doc A) : Z := st_updatedAt (snd d).
Definition fields {A : Type} (d : Doc A) : A := st_fields (snd d).

(** An element of [req.validated.items]. *)
Record Item : Type := mkItem {
  sku : string;
  name : string;
  unitPrice : float;
  quantity : float
}.

(** [{...i, lineTotal}], an element of [itemsWithTotals]. *)
Record ItemWithTotal : Type := mkItemWithTotal {
  item : Item;
  lineTotal : float
}.

(** An element of [itemsSummary]. *)
Record ItemSummary : Type := mkItemSummary {
  is_sku : string;
  is_quantity : float;
  is_lineTotal : float
}.

Inductive OrderStatus : Type := ORDER_PENDING | CONFIRMED | CANCELLED.

(** [OrderSchema]. *)
Record Order : Type := mkOrder {
  customerId : string;
  currency : string;
  status : OrderStatus;
  itemsSummary : list ItemSummary;
  grandTotal : float
}.

(** [OrderItemSchema]. *)
Record OrderItem : Type := mkOrderItem {
  orderId : ObjectId;
  oi_sku : string;
  oi_name : string;
  oi_unitPrice : float;
  oi_quantity : float;
  oi_lineTotal : float
}.

Inductive OutboxStatus : Type := PENDING | SENT | FAILED.

#[export] Instance OutboxStatus_eq_dec : EqDecision OutboxStatus.
Proof. solve_decision. Defined.

(** [OutboxEventSchema]; [lastError: None] is an absent or [null] field. *)
Record OutboxEvent : Type := mkOutboxEvent {
  ev_type : string;
  aggregateId : string;
  payload : JSON;
  ev_status : OutboxStatus;
  lastError : option string
}.

(** The entity store: the three collections, keyed by [_id]. *)
Record Store : Type := mkStore {
  orders : gmap ObjectId (Stored Order);
  orderItems : gmap ObjectId (Stored OrderItem);
  outbox : gmap ObjectId (Stored OutboxEvent)
}.

Definition empty_store : Store := mkStore ∅ ∅ ∅.

(** *** Schema validation (run by [create] and [insertMany]) *)

(** [required: true] on a String path rejects the empty string. *)
Definition required_string (s : string) : bool := negb (String.eqb s "").

(** [min: m] on a Number path; [NaN] fails the cast to Number before. *)
Definition number_min (m x : float) : bool := (m <=? x)%float.

Definition validate_Order (o : Order) : bool :=
  required_string (customerId o) && required_string (currency o) &&
  number_min 0 (grandTotal o).

Definition validate_OrderItem (i : OrderItem) : bool :=
  required_string (oi_sku i) && required_string (oi_name i) &&
  number_min 0 (oi_unitPrice i) && number_min 1 (oi_quantity i) &&
  number_min 0 (oi_lineTotal i).

Definition validate_OutboxEvent (e : OutboxEvent) : bool :=
  required_string (ev_type e) && required_string (aggregateId e).

Definition ValidationError (model : string) : Thrown :=
  ThrownError "ValidationError" (model ++ " validation failed").

Definition DuplicateKey : Thrown :=
  ThrownError "MongoServerError" "E11000 duplicate key error".

Definition CastError : Thrown :=
  ThrownError "CastError" "Cast to ObjectId failed".

(** *** JSON forms *)

Definition OrderStatus_to_string (s : OrderStatus) : string :=
  match s with
  | ORDER_PENDING => "PENDING"
  | CONFIRMED => "CONFIRMED"
  | CANCELLED => "CANCELLED"
  end.

Definition ItemWithTotal_to_json (i : ItemWithTotal) : JSON :=
  JObj [("sku", JStr (sku (item i))); ("name", JStr (name (item i)));
        ("unitPrice", JNum (unitPrice (item i)));
        ("quantity", JNum (quantity (item i)));
        ("lineTotal", JNum (lineTotal i))].

(** An element of [itemsSummary] in a body sent by [res.json]. *)
Definition ItemSummary_to_json (s : ItemSummary) : JSON :=
  JObj [("sku", JStr (is_sku s)); ("quantity", json_number (is_quantity s));
        ("lineTotal", json_number (is_lineTotal s))].

(** The fields of a lean Order document, as [res.json] sends them. *)
Definition Order_fields_json (d : Doc Order) : list (string * JSON) :=
  [("_id", JStr (String_of_ObjectId (_id d)));
   ("customerId", JStr (customerId (fields d)));
   ("currency", JStr (currency (fields d)));
   ("status", JStr (OrderStatus_to_string (status (fields d))));
   ("itemsSummary", JArr (map ItemSummary_to_json (itemsSummary (fields d))));
   ("grandTotal", json_number (grandTotal (fields d)));
   ("createdAt", JDate (createdAt d));
   ("updatedAt", JDate (updatedAt d))].

(** A lean OrderItem document, as [res.json] sends it. *)
Definition OrderItem_to_json (d : Doc OrderItem) : JSON :=
  JObj [("_id", JStr (String_of_ObjectId (_id d)));
        ("orderId", JStr (String_of_ObjectId (orderId (fields d))));
        ("sku", JStr (oi_sku (fields d)));
        ("name", JStr (oi_name (fields d)));
        ("unitPrice", json_number (oi_unitPrice (fields d)));
        ("quantity", json_number (oi_quantity (fields d)));
        ("lineTotal", json_number (oi_lineTotal (fields d)));
        ("createdAt", JDate (createdAt d));
        ("updatedAt", JDate (updatedAt d))].

End Model.
Import Model.

(** ** What a handler or the worker does besides touching the store *)

Module Runtime.

Inductive Level : Type := INFO | ERROR.

(** The merging object of a log call. *)
Inductive LogCtx : Type :=
| CtxOrderId (orderId : ObjectId)                (* { orderId } *)
| CtxErr (err : Thrown)                          (* { err } *)
| CtxEvent (id : string) (type : string)         (* { id, type } *)
| CtxEventErr (id : string) (err : Thrown).      (* { id, err } *)

Inductive Effect : Type :=
| Publish (evt : Doc OutboxEvent)                (* a call of [publish] *)
| Log (lvl : Level) (ctx : LogCtx) (msg : string).

(** [res.status(code).json(body)]. *)
Record Response : Type := mkResponse {
  res_status : nat;
  res_body : JSON
}.

(** How an async Express handler ends: it sends a response, or its promise
    rejects and the handler itself sends nothing. *)
Inductive HandlerResult : Type :=
| Responded (r : Response)
| Unhandled (err : Thrown).

End Runtime.
Import Runtime.

(** ** Store operations (Mongoose model statics and the session) *)

Module Mongoose.

(** Code that runs inside a transaction: it reads and writes the snapshot of
    the session, and may reject. *)
Definition Txn (A : Type) : Type := Store -> Awaited (A * Store).

#[export] Instance Txn_ret : MRet Txn :=
  fun A a st => Fulfilled (a, st).

#[export] Instance Txn_bind : MBind Txn :=
  fun A B k c st =>
    match c st with
    | Fulfilled (a, st') => k a st'
    | Rejected err => Rejected err
    end.

(** A store call that the environment may make reject (connection lost,
    write conflict, ...) before it has any effect. *)
Definition store_call {A : Type} (fault : option Thrown) (op : Txn A) : Txn A :=
  fun st =>
    match fault with
    | Some err => Rejected err
    | None => op st
    end.

(** [Order.create([o], { session })]. *)
Definition Order_create (id : ObjectId) (now : Z) (o : Order) : Txn (Doc Order) :=
  fun st =>
    if validate_Order o then
      match orders st !! id with
      | Some _ => Rejected DuplicateKey
      | None =>
          Fulfilled (mkDoc id now o,
                     mkStore (<[id := mkStored now now o]> (orders st)) (orderItems st) (outbox st))
      end
    else Rejected (ValidationError "Order").

(** The ordered inserts of [insertMany]: the first duplicate key stops them. *)
Fixpoint insert_docs (docs : list (Doc OrderItem)) (c : gmap ObjectId (Stored OrderItem))
  : Awaited (gmap ObjectId (Stored OrderItem)) :=
  match docs with
  | [] => Fulfilled c
  | d :: docs' =>
      match c !! _id d with
      | Some _ => Rejected DuplicateKey
      | None => insert_docs docs' (<[_id d := snd d]> c)
      end
  end.

(** [OrderItem.insertMany(docs, { session })]: all documents are validated,
    then inserted in order; the k-th document gets the id [ids k]. *)
Definition OrderItem_insertMany (ids : nat -> ObjectId) (now : Z) (docs : list OrderItem)
  : Txn (list (Doc OrderItem)) :=
  fun st =>
    if forallb validate_OrderItem docs then
      let ds := imap (fun k i => mkDoc (ids k) now i) docs in
      match insert_docs ds (orderItems st) with
      | Fulfilled c => Fulfilled (ds, mkStore (orders st) c (outbox st))
      | Rejected err => Rejected err
      end
    else Rejected (ValidationError "OrderItem").

(** [OutboxEvent.create([{ type, aggregateId, payload }], { session })]; the
    schema default makes the status PENDING, and [lastError] is absent. *)
Definition OutboxEvent_create (id : ObjectId) (now : Z)
    (type aggregateId : string) (payload : JSON) : Txn (Doc OutboxEvent) :=
  fun st =>
    let e := mkOutboxEvent type aggregateId payload PENDING None in
    if validate_OutboxEvent e then
      match outbox st !! id with
      | Some _ => Rejected DuplicateKey
      | None =>
          Fulfilled (mkDoc id now e,
                     mkStore (orders st) (orderItems st) (<[id := mkStored now now e]> (outbox st)))
      end
    else Rejected (ValidationError "OutboxEvent").

(** [session.commitTransaction()]: nothing more to write; the caller installs
    the snapshot when this call is fulfilled. *)
Definition commitTransaction : Txn unit := mret tt.

(** [Order.findById(id).lean()]: the string is cast to an [ObjectId] first. *)
Definition Order_findById (fault : option Thrown) (id : string) (db : Store)
  : Awaited (option (Doc Order)) :=
  match castObjectId id with
  | None => Rejected CastError
  | Some oid =>
      match fault with
      | Some err => Rejected err
      | None => Fulfilled (pair oid <$> orders db !! oid)
      end
  end.

(** [OrderItem.find({ orderId }).lean()]. *)
Definition OrderItem_find (fault : option Thrown) (oid : ObjectId) (db : Store)
  : Awaited (list (Doc OrderItem)) :=
  match fault with
  | Some err => Rejected err
  | None =>
      Fulfilled (filter (fun d : Doc OrderItem => orderId (fields d) = oid)
                        (map_to_list (orderItems db)))
  end.

(** The order of [sort({ createdAt: 1 })]. *)
Definition createdAt_le (d1 d2 : Doc OutboxEvent) : Prop :=
  (createdAt d1 <= createdAt d2)%Z.

#[export] Instance createdAt_le_dec : RelDecision createdAt_le.
Proof. intros d1 d2. unfold createdAt_le. apply _. Defined.

(** [OutboxEvent.find({ status }).sort({ createdAt: 1 }).limit(n)]. *)
Definition OutboxEvent_find_sort_limit (fault : option Thrown)
    (s : OutboxStatus) (n : nat) (db : Store) : Awaited (list (Doc OutboxEvent)) :=
  match fault with
  | Some err => Rejected err
  | None =>
      Fulfilled (take n (merge_sort createdAt_le
                   (filter (fun d : Doc OutboxEvent => ev_status (fields d) = s)
                           (map_to_list (outbox db)))))
  end.

(** [{ $set: { status, lastError } }] applied to a stored event. *)
Definition set_status_lastError (d : Stored OutboxEvent) (s : OutboxStatus)
    (err : option string) : Stored OutboxEvent :=
  mkStored (st_createdAt d) (st_updatedAt d)
    (mkOutboxEvent (ev_type (st_fields d)) (aggregateId (st_fields d))
                   (payload (st_fields d)) s err).

(** What [timestamps: true] adds to every update: [updatedAt] becomes the
    time of the call. *)
Definition set_updatedAt {A : Type} (now : Z) (d : Stored A) : Stored A :=
  mkStored (st_createdAt d) now (st_fields d).

(** [OutboxEvent.updateOne(filter, { $set: { status, lastError } })] issued
    at time [now], where the filter is [{ _id }] or [{ _id, status }].  No
    matching document is not an error: nothing is written. *)
Definition OutboxEvent_updateOne (fault : option Thrown) (now : Z)
    (filter_id : ObjectId) (filter_status : option OutboxStatus)
    (set_status : OutboxStatus) (set_lastError : option string)
    (db : Store) : Awaited Store :=
  match fault with
  | Some err => Rejected err
  | None =>
      match outbox db !! filter_id with
      | Some d =>
          if match filter_status with
             | Some s => bool_decide (ev_status (st_fields d) = s)
             | None => true
             end
          then
            Fulfilled (mkStore (orders db) (orderItems db)
                         (<[filter_id :=
                              set_updatedAt now
                                (set_status_lastError d set_status set_lastError)]>
                            (outbox db)))
          else Fulfilled db
      | None => Fulfilled db
      end
  end.

End Mongoose.
Import Mongoose.

(** ** index.js: the HTTP handlers *)

Module Api.

(** The awaited store calls of [POST /orders], in program order. *)
Inductive Call : Type :=
| OrderCreate | OrderItemInsertMany | OutboxEventCreate | CommitTransaction.

(** What the environment decides during one [POST /orders] request. *)
Record PostEnv : Type := mkPostEnv {
  startSession : Awaited unit;         (* db.js: [mongoose.startSession()] *)
  rejects : Call -> option Thrown;     (* a store call that fails *)
  new_ObjectId : Call -> nat -> ObjectId; (* the id of the k-th new document *)
  now : Call -> Z                      (* the clock at that call *)
}.

(** [req.validated]. *)
Record CreateOrder : Type := mkCreateOrder {
  co_customerId : string;
  co_currency : string;
  co_items : list Item
}.

(** [items.map(i => ({ ...i, lineTotal: Math.round((i.unitPrice * i.quantity) * 100) / 100 }))] *)
Definition itemsWithTotals (items : list Item) : list ItemWithTotal :=
  map (fun i => mkItemWithTotal i
                 (Math_round ((unitPrice i * quantity i) * 100) / 100)%float)
      items.

(** [Math.round(itemsWithTotals.reduce((s, i) => s + i.lineTotal, 0) * 100) / 100] *)
Definition compute_grandTotal (iwt : list ItemWithTotal) : float :=
  (Math_round (fold_left (fun s i => s + lineTotal i) iwt 0 * 100) / 100)%float.

(** [itemsWithTotals.map(i => ({ sku: i.sku, quantity: i.quantity, lineTotal: i.lineTotal }))] *)
Definition summary_of (iwt : list ItemWithTotal) : list ItemSummary :=
  map (fun i => mkItemSummary (sku (item i)) (quantity (item i)) (lineTotal i)) iwt.

(** [itemsWithTotals.map(i => ({ orderId, sku: i.sku, ..., lineTotal: i.lineTotal }))] *)
Definition itemsDocs (orderId : ObjectId) (iwt : list ItemWithTotal) : list OrderItem :=
  map (fun i => mkOrderItem orderId (sku (item i)) (name (item i))
                  (unitPrice (item i)) (quantity (item i)) (lineTotal i))
      iwt.

(** The payload of the outbox event. *)
Definition order_created_payload (orderId : ObjectId) (customerId currency : string)
    (grandTotal : float) (iwt : list ItemWithTotal) : JSON :=
  JObj [("orderId", JStr (String_of_ObjectId orderId));
        ("customerId", JStr customerId);
        ("currency", JStr currency);
        ("grandTotal", JNum grandTotal);
        ("items", JArr (map ItemWithTotal_to_json iwt))].

(** [{ orderId, grandTotal, currency, status: "CONFIRMED" }], as [res.json]
    sends it. *)
Definition created_body (orderId : ObjectId) (grandTotal : float) (currency : string) : JSON :=
  JObj [("orderId", JStr (String_of_ObjectId orderId));
        ("grandTotal", json_number grandTotal);
        ("currency", JStr currency);
        ("status", JStr "CONFIRMED")].

(** The body of the [try] block, up to and including the commit.  It yields
    what the handler logs and sends after the commit. *)
Definition create_order_transaction (env : PostEnv) (req : CreateOrder)
  : Txn (list Effect * Response) :=
  let customerId := co_customerId req in
  let currency := co_currency req in
  let items := co_items req in
  (* compute totals *)
  let itemsWithTotals := itemsWithTotals items in
  let grandTotal := compute_grandTotal itemsWithTotals in
  (* 1) create order *)
  order ← store_call (rejects env OrderCreate)
            (Order_create (new_ObjectId env OrderCreate 0) (now env OrderCreate)
               (mkOrder customerId currency CONFIRMED
                        (summary_of itemsWithTotals) grandTotal));
  let orderId := _id order in
  (* 2) create order items docs *)
  let itemsDocs := itemsDocs orderId itemsWithTotals in
  _ ← store_call (rejects env OrderItemInsertMany)
        (OrderItem_insertMany (new_ObjectId env OrderItemInsertMany)
           (now env OrderItemInsertMany) itemsDocs);
  (* 3) transactional outbox event *)
  _ ← store_call (rejects env OutboxEventCreate)
        (OutboxEvent_create (new_ObjectId env OutboxEventCreate 0)
           (now env OutboxEventCreate)
           "ORDER_CREATED"
           (String_of_ObjectId orderId)
           (order_created_payload orderId customerId currency grandTotal
                                  itemsWithTotals));
  _ ← store_call (rejects env CommitTransaction) commitTransaction;
  mret ([Log INFO (CtxOrderId orderId) "order created"],
        mkResponse 201 (created_body orderId grandTotal currency)).

(** [app.post("/orders", ...)].  The session is opened before the [try]; the
    [try] block runs on the snapshot of the session; the [catch] block aborts
    (the snapshot is dropped), logs and answers 500. *)
Definition post_orders (env : PostEnv) (req : CreateOrder) (db : Store)
  : HandlerResult * Store * list Effect :=
  match startSession env with
  | Rejected err => (Unhandled err, db, [])
  | Fulfilled _ =>
      match create_order_transaction env req db with
      | Fulfilled (effs, res, committed) => (Responded res, committed, effs)
      | Rejected err =>
          (Responded (mkResponse 500 (JObj [("error", JStr "OrderCreationFailed")])),
           db,
           [Log ERROR (CtxErr err) "order creation failed"])
      end
  end.

(** What the environment decides during one [GET /orders/:id] request. *)
Record GetEnv : Type := mkGetEnv {
  findById_rejects : option Thrown;
  find_rejects : option Thrown
}.

(** [app.get("/orders/:id", ...)]: no [try]; a rejected query rejects the
    handler. *)
Definition get_order (env : GetEnv) (id : string) (db : Store) : HandlerResult :=
  match Order_findById (findById_rejects env) id db with
  | Rejected err => Unhandled err
  | Fulfilled None => Responded (mkResponse 404 (JObj [("error", JStr "NotFound")]))
  | Fulfilled (Some order) =>
      match OrderItem_find (find_rejects env) (_id order) db with
      | Rejected err => Unhandled err
      | Fulfilled items =>
          Responded (mkResponse 200
            (JObj (Order_fields_json order ++
                   [("items", JArr (map OrderItem_to_json items))])))
      end
  end.

End Api.
Import Api.

(** ** The outbox worker *)

Module Worker.

Definition BATCH : nat := 50.
Definition INTERVAL_MS : Z := 1000.

(** [publish]: the shipped stub; it resolves to [true]. *)
Definition publish (evt : Doc OutboxEvent) : Awaited bool := Fulfilled true.

(** What the environment decides during one tick: whether the batch read
    rejects, for each event whether its status write rejects, in the [try]
    block and in the [catch] block, and the clock when the write that sets a
    status on an event is issued. *)
Record TickEnv : Type := mkTickEnv {
  find_pending_rejects : option Thrown;
  sent_write_rejects : ObjectId -> option Thrown;
  failed_write_rejects : ObjectId -> option Thrown;
  write_time : ObjectId -> OutboxStatus -> Z
}.

Section Relay.

(** The tick for any publisher; [run] uses [publish]. *)
Variable publisher : Doc OutboxEvent -> Awaited bool.
Variable env : TickEnv.

(** The inner [try] block: the value [publish] resolves to is not used. *)
Definition try_send (evt : Doc OutboxEvent) (db : Store) : Awaited Store :=
  match publisher evt with
  | Rejected err => Rejected err
  | Fulfilled _ =>
      OutboxEvent_updateOne (sent_write_rejects env (_id evt))
        (write_time env (_id evt) SENT)
        (_id evt) (Some PENDING) SENT None db
  end.

(** The [for] loop with its inner [try]/[catch].  The first component is the
    error that left the loop, if any: only the write in the [catch] block can
    throw out of it. *)
Fixpoint process_events (events : list (Doc OutboxEvent)) (db : Store)
  : option Thrown * Store * list Effect :=
  match events with
  | [] => (None, db, [])
  | evt :: rest =>
      match try_send evt db with
      | Fulfilled db1 =>
          let '(r, db', effs) := process_events rest db1 in
          (r, db',
           Publish evt ::
           Log INFO (CtxEvent (String_of_ObjectId (_id evt)) (ev_type (fields evt)))
               "outbox sent" :: effs)
      | Rejected err =>
          match OutboxEvent_updateOne (failed_write_rejects env (_id evt))
                  (write_time env (_id evt) FAILED)
                  (_id evt) None FAILED (Some (message_or_String err)) db with
          | Fulfilled db1 =>
              let '(r, db', effs) := process_events rest db1 in
              (r, db',
               Publish evt ::
               Log ERROR (CtxEventErr (String_of_ObjectId (_id evt)) err)
                   "outbox publish failed" :: effs)
          | Rejected err' => (Some err', db, [Publish evt])
          end
      end
  end.

(** The callback of [setInterval]: the outer [try]/[catch]. *)
Definition tick (db : Store) : Store * list Effect :=
  match OutboxEvent_find_sort_limit (find_pending_rejects env) PENDING BATCH db with
  | Rejected err => (db, [Log ERROR (CtxErr err) "outbox tick failed"])
  | Fulfilled events =>
      let '(r, db', effs) := process_events events db in
      match r with
      | None => (db', effs)
      | Some err => (db', effs ++ [Log ERROR (CtxErr err) "outbox tick failed"])
      end
  end.

(** The callback from the point where its batch has been read: the loop and
    the outer [catch], on the store as it is when the callback goes on. *)
Definition resume (events : list (Doc OutboxEvent)) (db : Store)
  : Store * list Effect :=
  let '(r, db', effs) := process_events events db in
  match r with
  | None => (db', effs)
  | Some err => (db', effs ++ [Log ERROR (CtxErr err) "outbox tick failed"])
  end.

End Relay.

(** Two callbacks that overlap.  [setInterval] starts a callback every
    [INTERVAL_MS] whether or not the promise of the one before has settled,
    and a callback gives way at each [await].  Here the store has served the
    batch read of the first callback, which stays suspended (the answer is
    late, or [publish] takes its time on the first event); the second
    callback runs from its read to its end; then the first goes through its
    loop, with the batch it read, on the store the second left. *)
Definition overlapping
    (publisher1 : Doc OutboxEvent -> Awaited bool) (env1 : TickEnv)
    (publisher2 : Doc OutboxEvent -> Awaited bool) (env2 : TickEnv)
    (db : Store) : Store * list Effect :=
  match OutboxEvent_find_sort_limit (find_pending_rejects env1) PENDING BATCH db with
  | Rejected err =>
      let '(db2, effs2) := tick publisher2 env2 db in
      (db2, Log ERROR (CtxErr err) "outbox tick failed" :: effs2)
  | Fulfilled events =>
      let '(db2, effs2) := tick publisher2 env2 db in
      let '(db1, effs1) := resume publisher1 env1 events db2 in
      (db1, effs2 ++ effs1)
  end.

(** Successive ticks that do not overlap, each with its own publisher
    behaviour and environment: every callback ends before the next starts. *)
Fixpoint ticks (steps : list ((Doc OutboxEvent -> Awaited bool) * TickEnv))
    (db : Store) : Store :=
  match steps with
  | [] => db
  | (p, env) :: steps' => ticks steps' (fst (tick p env db))
  end.

(** The ticks of [run]: the publisher is [publish]. *)
Definition run (envs : list TickEnv) (db : Store) : Store :=
  ticks (map (fun env => (publish, env)) envs) db.

End Worker.
Import Worker.

(** ** Vocabulary of the statements *)

(** The handler answered 201. *)
Definition created (r : HandlerResult) : bool :=
  match r with
  | Responded res => Nat.eqb (res_status res) 201
  | Unhandled _ => false
  end.

(** The events handed to the publisher, in call order. *)
Definition published (effs : list Effect) : list (Doc OutboxEvent) :=
  omap (fun e => match e with Publish evt => Some evt | Log _ _ _ => None end) effs.

(** The grand total as a function of the requested items, with the
    arithmetic of the handler: every line total is [round2] of the binary64
    product [unitPrice * quantity], and the grand total is [round2] of their
    binary64 sum, taken from left to right. *)
Definition rounded_sum_of_line_totals (items : list Item) : float :=
  round2 (fold_left (fun s t => (s + t)%float)
                    (map (fun i => round2 (unitPrice i * quantity i)) items)
                    0%float).

(** The same total in the words of the specification, "lineTotal =
    round(unitPrice x quantity, 2)" and "rounded to 2 decimal places
    half-up", read on the real numbers that the binary64 values stand for. *)







(** The status of the event stored under an id, if there is one. *)
Definition status_of (db : Store) (id : ObjectId) : option OutboxStatus :=
  ev_status ∘ st_fields <$> outbox db !! id.

(** A legal move of a status between two observations. *)
Definition one_way (before after : OutboxStatus) : Prop :=
  after = before \/ (before = PENDING /\ (after = SENT \/ after = FAILED)).

(** The documents one [POST /orders] request writes when it goes through:
    the environment supplies the ids and the clock, the request the rest. *)
Definition written_order (env : PostEnv) (req : CreateOrder) : Doc Order :=
  let iwt := itemsWithTotals (co_items req) in
  mkDoc (new_ObjectId env OrderCreate 0) (now env OrderCreate)
    (mkOrder (co_customerId req) (co_currency req) CONFIRMED (summary_of iwt)
             (compute_grandTotal iwt)).

Definition written_items (env : PostEnv) (req : CreateOrder) : list (Doc OrderItem) :=
  imap (fun k i => mkDoc (new_ObjectId env OrderItemInsertMany k)
                         (now env OrderItemInsertMany) i)
       (itemsDocs (new_ObjectId env OrderCreate 0) (itemsWithTotals (co_items req))).

Definition written_event (env : PostEnv) (req : CreateOrder) : Doc OutboxEvent :=
  let iwt := itemsWithTotals (co_items req) in
  let oid := new_ObjectId env OrderCreate 0 in
  mkDoc (new_ObjectId env OutboxEventCreate 0) (now env OutboxEventCreate)
    (mkOutboxEvent "ORDER_CREATED" (String_of_ObjectId oid)
       (order_created_payload oid (co_customerId req) (co_currency req)
                              (compute_grandTotal iwt) iwt)
       PENDING None).

(** What the loop of the worker decides for one event: the publisher and the
    two status writes, in the order the code tries them. *)
Inductive Verdict : Type :=
| MarkSent
| MarkFailed (lastError : string)
| Abort (err : Thrown).

Definition verdict (publisher : Doc OutboxEvent -> Awaited bool) (env : TickEnv)
    (evt : Doc OutboxEvent) : Verdict :=
  let catch err :=
    match failed_write_rejects env (_id evt) with
    | None => MarkFailed (message_or_String err)
    | Some err' => Abort err'
    end in
  match publisher evt with
  | Rejected err => catch err
  | Fulfilled _ =>
      match sent_write_rejects env (_id evt) with
      | None => MarkSent
      | Some err => catch err
      end
  end.

(** The record of a PENDING event after the verdict; [now] is the clock of
    the write that sets a status. *)
Definition settle (now : OutboxStatus -> Z) (v : Verdict) (d : Stored OutboxEvent)
  : Stored OutboxEvent :=
  match v with
  | MarkSent => set_updatedAt (now SENT) (set_status_lastError d SENT None)
  | MarkFailed m => set_updatedAt (now FAILED) (set_status_lastError d FAILED (Some m))
  | Abort _ => d
  end.

(** Two stored events differ at most in status, last error and [updatedAt]. *)
Definition same_event (d d' : Stored OutboxEvent) : Prop :=
  st_createdAt d' = st_createdAt d /\
  ev_type (st_fields d') = ev_type (st_fields d) /\
  aggregateId (st_fields d') = aggregateId (st_fields d) /\
  payload (st_fields d') = payload (st_fields d).

(** What the worker may do to a store: the Orders and the OrderItems are the
    same, no OutboxEvent has come or gone, and a stored OutboxEvent differs
    at most in status, last error and [updatedAt]. *)
Definition only_settles (db db' : Store) : Prop :=
  orders db' = orders db /\
  orderItems db' = orderItems db /\
  forall id,
    match outbox db !! id, outbox db' !! id with
    | Some d, Some d' => same_event d d'
    | None, None => True
    | _, _ => False
    end.

(** A step of the whole system: a [POST /orders] request or a tick of the
    worker, each in its own environment.  A run [steps] takes them one after
    the other: no two callbacks of the worker overlap in it. *)
Inductive Step : Type :=
| Request (env : PostEnv) (req : CreateOrder)
| RelayTick (publisher : Doc OutboxEvent -> Awaited bool) (env : TickEnv).

Definition step (s : Step) (db : Store) : Store :=
  match s with
  | Request env req => (post_orders env req db).1.2
  | RelayTick publisher env => (tick publisher env db).1
  end.

Definition steps (l : list Step) (db : Store) : Store :=
  fold_left (fun db s => step s db) l db.

(** What a step of the system does besides touching the store. *)
Definition step_effects (s : Step) (db : Store) : list Effect :=
  match s with
  | Request env req => (post_orders env req db).2
  | RelayTick publisher env => (tick publisher env db).2
  end.

(** The events handed to the publisher along a run of the system in which
    no two callbacks of the worker overlap, in call order. *)
Fixpoint steps_published (l : list Step) (db : Store) : list (Doc OutboxEvent) :=
  match l with
  | [] => []
  | s :: l' => published (step_effects s db) ++ steps_published l' (step s db)
  end.

(** The environments of the ticks of a run. *)
Definition tick_envs (l : list Step) : list TickEnv :=
  omap (fun s => match s with RelayTick _ env => Some env | Request _ _ => None end) l.

(** Invariants of the store. *)

(** Every OrderItem points to a stored Order. *)
Definition items_belong_to_orders (db : Store) : Prop :=
  forall k i, orderItems db !! k = Some i ->
    is_Some (orders db !! orderId (st_fields i)).

(** There are as many OutboxEvents as Orders; every Order has an
    ORDER_CREATED event under its string id, and every event is the
    ORDER_CREATED event of a stored Order whose payload repeats the
    customer, the currency and the grand total of that Order and has one
    entry per summary line. *)
Definition outbox_matches_orders (db : Store) : Prop :=
  size (outbox db) = size (orders db) /\
  (forall oid o, orders db !! oid = Some o ->
     exists eid e, outbox db !! eid = Some e /\
       aggregateId (st_fields e) = String_of_ObjectId oid) /\
  (forall eid e, outbox db !! eid = Some e ->
     ev_type (st_fields e) = "ORDER_CREATED" /\
     exists oid o items,
       orders db !! oid = Some o /\
       aggregateId (st_fields e) = String_of_ObjectId oid /\
       length items = length (itemsSummary (st_fields o)) /\
       payload (st_fields e) =
         JObj [("orderId", JStr (String_of_ObjectId oid));
               ("customerId", JStr (customerId (st_fields o)));
               ("currency", JStr (currency (st_fields o)));
               ("grandTotal", JNum (grandTotal (st_fields o)));
               ("items", JArr items)]).

(** Every Order is CONFIRMED and passes its schema, and its grand total is
    the rounded sum of the line totals of its summary; every OrderItem passes
    its schema and its line total is the rounded product of unit price and
    quantity. *)
Definition totals_hold (db : Store) : Prop :=
  (forall oid o, orders db !! oid = Some o ->
     status (st_fields o) = CONFIRMED /\
     validate_Order (st_fields o) = true /\
     grandTotal (st_fields o) =
       round2 (fold_left (fun s l => (s + is_lineTotal l)%float)
                         (itemsSummary (st_fields o)) 0%float)) /\
  (forall k i, orderItems db !! k = Some i ->
     validate_OrderItem (st_fields i) = true /\
     oi_lineTotal (st_fields i) =
       round2 (oi_unitPrice (st_fields i) * oi_quantity (st_fields i))).

(** An event has a last error exactly when it is FAILED. *)
Definition lastError_iff_FAILED (db : Store) : Prop :=
  forall id e, outbox db !! id = Some e ->
    (ev_status (st_fields e) = FAILED <-> is_Some (lastError (st_fields e))).

(** ** Concrete scenarios *)

Module Scenario.

(** An environment in which nothing fails: the order gets id 1, the k-th item
    id 16 + k, the event id 256. *)
Definition calm : PostEnv :=
  mkPostEnv (Fulfilled tt) (fun _ => None)
    (fun c k => match c with
                | OrderCreate => 1%N
                | OrderItemInsertMany => (16 + N.of_nat k)%N
                | _ => 256%N
                end)
    (fun _ => 1700000000000%Z).

(** The same, but the session cannot be opened. *)
Definition session_down : PostEnv :=
  mkPostEnv (Rejected (ThrownError "MongoNotConnectedError" "Client must be connected"))
    (rejects calm) (new_ObjectId calm) (now calm).

(** The same as [calm], but the commit is rejected. *)
Definition commit_fails : PostEnv :=
  mkPostEnv (Fulfilled tt)
    (fun c => match c with
              | CommitTransaction => Some (ThrownError "MongoServerError" "WriteConflict")
              | _ => None
              end)
    (new_ObjectId calm) (now calm).

(** The same as [calm], but the insert of the outbox event is rejected. *)
Definition outbox_insert_fails : PostEnv :=
  mkPostEnv (Fulfilled tt)
    (fun c => match c with
              | OutboxEventCreate => Some (ThrownString "injected")
              | _ => None
              end)
    (new_ObjectId calm) (now calm).

(** Scenario A of the specification (the items are given names, which the
    schema requires). *)
Definition itemsA (n1 n2 : string) : list Item :=
  [mkItem "A1" n1 10.00 3; mkItem "B2" n2 5.50 2].

Definition reqA : CreateOrder := mkCreateOrder "customer-1" "INR" (itemsA "Widget" "Gadget").

(** The store after scenario A on an empty store. *)
Definition storeA : Store :=
  Eval vm_compute in (post_orders calm reqA empty_store).1.2.

(** A PENDING event as [POST /orders] writes it. *)
Definition pending_event (created : Z) (aggregate : string) : Stored OutboxEvent :=
  mkStored created created
    (mkOutboxEvent "ORDER_CREATED" aggregate (JObj []) PENDING None).

(** An outbox with three events: 1 and 2 are PENDING, 2 is the older one;
    3 was sent before. *)
Definition backlog : Store :=
  mkStore ∅ ∅
    (<[1%N := pending_event 20 "a1"]>
       (<[2%N := pending_event 10 "a2"]>
          (<[3%N := set_status_lastError (pending_event 5 "a3") SENT None]> ∅))).

(** The clock of the ticks of the scenarios. *)
Definition noon (id : ObjectId) (s : OutboxStatus) : Z := 1700000060000.

(** A tick in which no store call fails. *)
Definition steady : TickEnv := mkTickEnv None (fun _ => None) (fun _ => None) noon.

(** A tick in which the batch read fails. *)
Definition read_fails : TickEnv :=
  mkTickEnv (Some (ThrownError "MongoNetworkError" "connection closed"))
            (fun _ => None) (fun _ => None) noon.

(** A tick in which the SENT write of event 2 fails. *)
Definition sent_write_fails : TickEnv :=
  mkTickEnv None
    (fun id => if N.eqb id 2 then Some (ThrownError "MongoNetworkError" "timed out")
               else None)
    (fun _ => None)
    (fun _ _ => 1700000061000%Z).

(** A tick in which both status writes of event 2 fail. *)
Definition status_writes_fail : TickEnv :=
  mkTickEnv None
    (sent_write_rejects sent_write_fails)
    (fun id => if N.eqb id 2 then Some (ThrownError "MongoNetworkError" "timed out")
               else None)
    noon.

(** A publisher that signals failure by its result. *)
Definition refusing (evt : Doc OutboxEvent) : Awaited bool := Fulfilled false.

(** A publisher that throws for event 2 and delivers the others. *)
Definition throwing (evt : Doc OutboxEvent) : Awaited bool :=
  if N.eqb (_id evt) 2 then Rejected (ThrownError "Error" "broker unavailable")
  else Fulfilled true.

(** A publisher that throws for every event. *)
Definition always_throwing (evt : Doc OutboxEvent) : Awaited bool :=
  Rejected (ThrownError "Error" "broker unavailable").

End Scenario.

(** * Properties *)

(** ** Rounding *)

(** [Math.round] on ties and around them, as ECMAScript defines it. *)
Example Math_round_ties :
  (Math_round 2.5 = 3 /\ Math_round (-2.5) = -2 /\ Math_round 0.5 = 1 /\
   Math_round (-0.5) = -0 /\ Math_round 2.4 = 2 /\ Math_round (-2.6) = -3 /\
   Math_round 3000 = 3000 /\ Math_round 0.49999999999999994 = 0)%float.
Proof. repeat split; vm_compute; reflexivity. Qed.

(** [Math.round(x * 100) / 100] on numbers at and around a tie of the second
    decimal. *)
Example round2_half_up :
  (round2 0.125 = 0.13 /\ round2 0.375 = 0.38 /\ round2 30 = 30 /\
   round2 10.004 = 10 /\ round2 10.006 = 10.01 /\ round2 (0.1 + 0.2) = 0.3)%float.
Proof. repeat split; vm_compute; reflexivity. Qed.

(** ** The transaction of [POST /orders] *)

(** The documents built by [insertMany] carry the given fields. *)
Lemma written_items_itemsDocs env req :
  map fields (written_items env req)
  = itemsDocs (new_ObjectId env OrderCreate 0) (itemsWithTotals (co_items req)).
Proof.
  unfold written_items.
  generalize (itemsDocs (new_ObjectId env OrderCreate 0)
                        (itemsWithTotals (co_items req))).
  generalize (new_ObjectId env OrderItemInsertMany).
  intros ids l. revert ids. induction l as [|x l IH]; intros ids; [done|].
  cbn. f_equal. apply (IH (ids ∘ S)).
Qed.

(** The simplification step of the proofs about the transaction. *)
Local Ltac txn_step :=
  cbn -[validate_Order validate_OrderItem insert_docs String_of_ObjectId
        compute_grandTotal].

(** A fulfilled transaction went through every step. *)
Lemma create_order_transaction_Fulfilled env req db effs res st :
  create_order_transaction env req db = Fulfilled (effs, res, st) ->
  (forall c, rejects env c = None) /\
  validate_Order (fields (written_order env req)) = true /\
  forallb validate_OrderItem (map fields (written_items env req)) = true /\
  orders db !! _id (written_order env req) = None /\
  outbox db !! _id (written_event env req) = None /\
  (exists c, insert_docs (written_items env req) (orderItems db) = Fulfilled c /\
     st = mkStore (<[_id (written_order env req) := snd (written_order env req)]> (orders db))
                  c
                  (<[_id (written_event env req) := snd (written_event env req)]> (outbox db))) /\
  effs = [Log INFO (CtxOrderId (_id (written_order env req))) "order created"] /\
  res = mkResponse 201
          (created_body (_id (written_order env req))
                        (grandTotal (fields (written_order env req)))
                        (co_currency req)).
Proof.
  rewrite written_items_itemsDocs.
  unfold create_order_transaction, mbind, Txn_bind, mret, Txn_ret, store_call,
    commitTransaction, Order_create, OrderItem_insertMany, OutboxEvent_create,
    written_order, written_items, written_event.
  txn_step.
  destruct (rejects env OrderCreate) eqn:F1; [discriminate|].
  destruct (validate_Order _) eqn:V1; [|discriminate].
  destruct (orders db !! _) eqn:L1; [discriminate|].
  txn_step.
  destruct (rejects env OrderItemInsertMany) eqn:F2; [discriminate|].
  destruct (forallb _ _) eqn:V2; [|discriminate].
  txn_step.
  destruct (insert_docs _ _) as [c|] eqn:I; [|discriminate].
  txn_step.
  destruct (rejects env OutboxEventCreate) eqn:F3; [discriminate|].
  destruct (outbox db !! _) eqn:L3; [discriminate|].
  txn_step.
  destruct (rejects env CommitTransaction) eqn:F4; [discriminate|].
  intros [= <- <- <-].
  split; [intros []; done|].
  repeat split; try done.
  by eexists.
Qed.

(** Every item written by a request points to the order of the request and
    carries its rounded line total. *)
Lemma written_items_fields env req d :
  d ∈ written_items env req ->
  orderId (fields d) = _id (written_order env req) /\
  oi_lineTotal (fields d) = round2 (oi_unitPrice (fields d) * oi_quantity (fields d)).
Proof.
  unfold written_items. intros [k Hk]%list_elem_of_lookup.
  rewrite list_lookup_imap in Hk. unfold itemsDocs, itemsWithTotals in Hk.
  rewrite !list_lookup_fmap in Hk.
  destruct (co_items req !! k); [|discriminate].
  cbn in Hk. by injection Hk as <-.
Qed.

(** The ordered inserts add exactly the given documents, all under new keys. *)
Lemma insert_docs_Fulfilled docs c c' :
  insert_docs docs c = Fulfilled c' ->
  c' = list_to_map docs ∪ c /\
  NoDup (map _id docs) /\
  (forall d, d ∈ docs -> c !! _id d = None).
Proof.
  revert c. induction docs as [|[k v] docs IH]; intros c; cbn.
  - intros [= <-]. split; [by rewrite (left_id_L ∅ (∪))|].
    split; [constructor|]. intros d Hd. by apply elem_of_nil in Hd.
  - unfold _id at 1. cbn. destruct (c !! k) eqn:Hk; [discriminate|].
    intros H. apply IH in H as (-> & Hnd & Hfresh).
    assert (Hnot : k ∉ map _id docs).
    { intros Hin. apply list_elem_of_fmap in Hin as (d & -> & Hd).
      specialize (Hfresh d Hd). by rewrite lookup_insert_eq in Hfresh. }
    split.
    { rewrite <- insert_union_r; [by rewrite insert_union_l|].
      by apply not_elem_of_list_to_map_1. }
    split; [by constructor|].
    intros d [->|Hd]%elem_of_cons; [exact Hk|].
    specialize (Hfresh d Hd).
    destruct (decide (k = _id d)) as [->|Hne].
    + by rewrite lookup_insert_eq in Hfresh.
    + by rewrite lookup_insert_ne in Hfresh.
Qed.

(** Ordered inserts under distinct new keys go through. *)
Lemma insert_docs_fresh docs c :
  NoDup (map _id docs) ->
  (forall d, d ∈ docs -> c !! _id d = None) ->
  exists c', insert_docs docs c = Fulfilled c'.
Proof.
  revert c. induction docs as [|d docs IH]; intros c Hnd Hfresh; cbn.
  - by eexists.
  - change (NoDup (_id d :: map _id docs)) in Hnd.
    apply NoDup_cons in Hnd as [Hd Hnd].
    rewrite (Hfresh d) by left. apply IH; [done|].
    intros d' Hd'. rewrite lookup_insert_ne; [apply Hfresh; by right|].
    intros Heq. apply Hd. rewrite Heq. by apply list_elem_of_fmap_2.
Qed.

(** When the session opens, no store call is rejected, the documents pass
    the validators of their schemas and the new ids are unused and distinct,
    the request is answered 201. *)
Lemma post_orders_succeeds env req db u :
  startSession env = Fulfilled u ->
  (forall c, rejects env c = None) ->
  validate_Order (fields (written_order env req)) = true ->
  forallb validate_OrderItem (map fields (written_items env req)) = true ->
  orders db !! _id (written_order env req) = None ->
  outbox db !! _id (written_event env req) = None ->
  NoDup (map _id (written_items env req)) ->
  (forall d, d ∈ written_items env req -> orderItems db !! _id d = None) ->
  created (post_orders env req db).1.1 = true.
Proof.
  intros Hs Hr Vo Vi Ho He Hnd Hfresh.
  destruct (insert_docs_fresh _ _ Hnd Hfresh) as [c Hc].
  rewrite written_items_itemsDocs in Vi. rename Vi into Vi'.
  unfold post_orders. rewrite Hs.
  unfold create_order_transaction, mbind, Txn_bind, mret, Txn_ret, store_call,
    commitTransaction, Order_create, OrderItem_insertMany, OutboxEvent_create.
  rewrite !Hr.
  unfold written_order, written_event, written_items, fields, _id, mkDoc in *.
  cbn [fst snd st_fields] in *.
  rewrite Vo, Ho. cbn [fst snd _id]. rewrite Vi'. unfold _id, mkDoc in Hc.
  cbn [fst snd orders orderItems outbox] in *. rewrite Hc.
  unfold validate_OutboxEvent. cbn [ev_type aggregateId orders orderItems outbox].
  rewrite He. reflexivity.
Qed.

(** The three ways [POST /orders] ends. *)
Lemma post_orders_cases env req db :
  (exists err, startSession env = Rejected err /\
     post_orders env req db = (Unhandled err, db, [])) \/
  (exists u err, startSession env = Fulfilled u /\
     create_order_transaction env req db = Rejected err /\
     post_orders env req db =
       (Responded (mkResponse 500 (JObj [("error", JStr "OrderCreationFailed")])),
        db, [Log ERROR (CtxErr err) "order creation failed"])) \/
  (exists u effs res st, startSession env = Fulfilled u /\
     create_order_transaction env req db = Fulfilled (effs, res, st) /\
     post_orders env req db = (Responded res, st, effs)).
Proof.
  unfold post_orders. destruct (startSession env) as [u|err].
  - destruct (create_order_transaction env req db) as [[[effs res] st]|err] eqn:T.
    + right; right. by exists u, effs, res, st.
    + right; left. by exists u, err.
  - left. by exists err.
Qed.

(** A request answered 201 is one whose transaction was fulfilled. *)
Lemma post_orders_created env req db :
  created (post_orders env req db).1.1 = true ->
  exists effs res st,
    create_order_transaction env req db = Fulfilled (effs, res, st) /\
    post_orders env req db = (Responded res, st, effs).
Proof.
  destruct (post_orders_cases env req db)
    as [(err & _ & ->)|[(u & err & _ & _ & ->)|(u & effs & res & st & _ & T & ->)]];
    cbn; try discriminate.
  intros _. by exists effs, res, st.
Qed.

(** ** Atomicity of order creation *)

(** C1. Atomicity of order creation.  Whatever the environment does, a
    [POST /orders] request that is not answered 201 leaves the store exactly
    as it was; a request answered 201 has added, together, one Order under a
    new id, one OrderItem per requested item, each under a new id and
    pointing to that Order, and one OutboxEvent under a new id whose
    aggregate id is the string form of the Order id, and nothing else. *)
Theorem post_orders_atomic env req db :
  let '(out, db', _) := post_orders env req db in
  if created out then
    exists (order : Doc Order) (items : list (Doc OrderItem)) (event : Doc OutboxEvent),
      (orders db !! _id order = None /\
       orders db' = <[_id order := snd order]> (orders db)) /\
      (length items = length (co_items req) /\
       NoDup (map _id items) /\
       (forall d, d ∈ items ->
          orderId (fields d) = _id order /\ orderItems db !! _id d = None) /\
       orderItems db' = list_to_map items ∪ orderItems db) /\
      (outbox db !! _id event = None /\
       outbox db' = <[_id event := snd event]> (outbox db) /\
       aggregateId (fields event) = String_of_ObjectId (_id order))
  else db' = db.
Proof.
  destruct (post_orders_cases env req db)
    as [(err & _ & ->)|[(u & err & _ & _ & ->)|(u & effs & res & st & _ & T & ->)]];
    cbn; try reflexivity.
  apply create_order_transaction_Fulfilled in T
    as (_ & _ & _ & Ho & He & (c & Hc & ->) & _ & ->).
  cbn. apply insert_docs_Fulfilled in Hc as (-> & Hnd & Hfresh).
  exists (written_order env req), (written_items env req), (written_event env req).
  split; [done|]. split; [|done].
  split.
  { unfold written_items, itemsDocs, itemsWithTotals.
    by rewrite length_imap, !length_map. }
  split; [done|]. split; [|done].
  intros d Hd. split; [|by apply Hfresh].
  by apply written_items_fields.
Qed.

(** ** The outbox event of a created order *)

(** C2. Every [POST /orders] request answered 201 has created exactly one
    OutboxEvent: the outbox collection is the old one plus one record under a
    new id.  Its type is "ORDER_CREATED", its aggregate id is the string form
    of the id of the Order created by the same request, it is PENDING, and
    its payload holds orderId, customerId, currency, grandTotal and one entry
    per requested item (the item with its line total). *)
Theorem post_orders_one_outbox_event env req db :
  created (post_orders env req db).1.1 = true ->
  let db' := (post_orders env req db).1.2 in
  exists (oid eid : ObjectId) (order : Stored Order) (evt : Stored OutboxEvent),
    (orders db !! oid = None /\ orders db' !! oid = Some order) /\
    (outbox db !! eid = None /\ outbox db' = <[eid := evt]> (outbox db) /\
     size (outbox db') = S (size (outbox db))) /\
    ev_type (st_fields evt) = "ORDER_CREATED" /\
    aggregateId (st_fields evt) = String_of_ObjectId oid /\
    ev_status (st_fields evt) = PENDING /\
    payload (st_fields evt) =
      JObj [("orderId", JStr (String_of_ObjectId oid));
            ("customerId", JStr (customerId (st_fields order)));
            ("currency", JStr (currency (st_fields order)));
            ("grandTotal", JNum (grandTotal (st_fields order)));
            ("items",
             JArr (map (fun i =>
                          JObj [("sku", JStr (sku i)); ("name", JStr (name i));
                                ("unitPrice", JNum (unitPrice i));
                                ("quantity", JNum (quantity i));
                                ("lineTotal", JNum (round2 (unitPrice i * quantity i)))])
                       (co_items req)))].
Proof.
  intros Hc. destruct (post_orders_created _ _ _ Hc) as (effs & res & st & T & ->).
  cbn. apply create_order_transaction_Fulfilled in T
    as (_ & _ & _ & Ho & He & (c & Hc' & ->) & _ & _).
  exists (_id (written_order env req)), (_id (written_event env req)),
         (snd (written_order env req)), (snd (written_event env req)).
  cbn -[String_of_ObjectId compute_grandTotal].
  repeat split; try done.
  - apply lookup_insert_eq.
  - by apply map_size_insert_None.
  - unfold order_created_payload, itemsWithTotals. by rewrite map_map.
Qed.

(** Witness of C2: scenario A on the empty store. *)
Lemma post_orders_one_outbox_event_witness :
  created (post_orders Scenario.calm Scenario.reqA empty_store).1.1 = true /\
  exists (oid eid : ObjectId) (order : Stored Order) (evt : Stored OutboxEvent),
    (orders empty_store !! oid = None /\ orders Scenario.storeA !! oid = Some order) /\
    (outbox empty_store !! eid = None /\
     outbox Scenario.storeA = <[eid := evt]> (outbox empty_store) /\
     size (outbox Scenario.storeA) = S (size (outbox empty_store))) /\
    ev_type (st_fields evt) = "ORDER_CREATED" /\
    aggregateId (st_fields evt) = String_of_ObjectId oid /\
    ev_status (st_fields evt) = PENDING /\
    payload (st_fields evt) =
      JObj [("orderId", JStr (String_of_ObjectId oid));
            ("customerId", JStr (customerId (st_fields order)));
            ("currency", JStr (currency (st_fields order)));
            ("grandTotal", JNum (grandTotal (st_fields order)));
            ("items",
             JArr (map (fun i =>
                          JObj [("sku", JStr (sku i)); ("name", JStr (name i));
                                ("unitPrice", JNum (unitPrice i));
                                ("quantity", JNum (quantity i));
                                ("lineTotal", JNum (round2 (unitPrice i * quantity i)))])
                       (co_items Scenario.reqA)))].
Proof.
  split; [vm_compute; reflexivity|].
  apply (post_orders_one_outbox_event Scenario.calm Scenario.reqA empty_store).
  vm_compute; reflexivity.
Defined.

(** ** Totals *)

(** The [reduce] over [itemsWithTotals] is the sum of the rounded products. *)
Lemma compute_grandTotal_rounded_sum items :
  compute_grandTotal (itemsWithTotals items) = rounded_sum_of_line_totals items.
Proof.
  unfold compute_grandTotal, rounded_sum_of_line_totals, round2, itemsWithTotals.
  do 3 f_equal. generalize 0%float. induction items as [|i items IH]; intros acc.
  - reflexivity.
  - cbn. apply IH.
Qed.




(** ** Failure reporting of [POST /orders] *)

(** A rejected store call rejects the transaction. *)
Lemma create_order_transaction_fault env req db c err :
  rejects env c = Some err ->
  exists err', create_order_transaction env req db = Rejected err'.
Proof.
  intros Hc. destruct (create_order_transaction env req db) as [[[effs res] st]|err'] eqn:T.
  - apply create_order_transaction_Fulfilled in T as (Hnone & _). congruence.
  - by exists err'.
Qed.

(** A rejected insert of the Order is what the [try] block throws. *)
Lemma create_order_transaction_first_fault env req db err :
  rejects env OrderCreate = Some err ->
  create_order_transaction env req db = Rejected err.
Proof.
  intros H. unfold create_order_transaction, mbind, Txn_bind, store_call.
  by rewrite H.
Qed.

(** C7.  What the handler does when a step of order creation fails.  The
    session is opened before the [try] block: when [startSession] rejects,
    the promise of the handler rejects with that error; no response is sent,
    nothing is logged, and the store is unchanged.  Once the session is open,
    a request in which a store call is rejected is not answered 201, and a
    request that is not answered 201 is one whose [try] block threw: it is
    answered 500 with the body [{error: "OrderCreationFailed"}] whatever was
    thrown, what was thrown is in the one log entry and nowhere in the
    response, and the store is unchanged.  When the insert of the Order is
    rejected, the error of that call is what is logged. *)
Theorem post_orders_failure_reporting env req db :
  (forall err,
     startSession env = Rejected err ->
     post_orders env req db = (Unhandled err, db, [])) /\
  (forall u,
     startSession env = Fulfilled u ->
     (forall c err, rejects env c = Some err ->
        created (post_orders env req db).1.1 = false) /\
     (forall err, rejects env OrderCreate = Some err ->
        create_order_transaction env req db = Rejected err) /\
     (created (post_orders env req db).1.1 = false ->
        exists cause,
          create_order_transaction env req db = Rejected cause /\
          post_orders env req db =
            (Responded (mkResponse 500 (JObj [("error", JStr "OrderCreationFailed")])),
             db,
             [Log ERROR (CtxErr cause) "order creation failed"]))).
Proof.
  split.
  { intros err Hs. unfold post_orders. by rewrite Hs. }
  intros u Hs.
  split; [|split; [apply create_order_transaction_first_fault|]].
  - intros c err Hc.
    destruct (create_order_transaction_fault env req db c err Hc) as [err' T].
    unfold post_orders. by rewrite Hs, T.
  - destruct (post_orders_cases env req db)
      as [(err & Hs' & _)|[(u' & err & _ & T & E)|(u' & effs & res & st & _ & T & E)]].
    + congruence.
    + intros _. by exists err.
    + rewrite E. cbn.
      apply create_order_transaction_Fulfilled in T as (_ & _ & _ & _ & _ & _ & _ & ->).
      cbn. discriminate.
Qed.

(** Witness of C7: a request whose session cannot be opened, and one whose
    commit is rejected. *)
Lemma post_orders_failure_reporting_witness :
  (startSession Scenario.session_down
     = Rejected (ThrownError "MongoNotConnectedError" "Client must be connected") /\
   post_orders Scenario.session_down Scenario.reqA empty_store =
     (Unhandled (ThrownError "MongoNotConnectedError" "Client must be connected"),
      empty_store, [])) /\
  (startSession Scenario.commit_fails = Fulfilled tt /\
   rejects Scenario.commit_fails CommitTransaction
     = Some (ThrownError "MongoServerError" "WriteConflict") /\
   created (post_orders Scenario.commit_fails Scenario.reqA empty_store).1.1 = false /\
   post_orders Scenario.commit_fails Scenario.reqA empty_store =
     (Responded (mkResponse 500 (JObj [("error", JStr "OrderCreationFailed")])),
      empty_store,
      [Log ERROR (CtxErr (ThrownError "MongoServerError" "WriteConflict"))
           "order creation failed"])).
Proof.
  split.
  - split; [reflexivity|].
    apply (proj1 (post_orders_failure_reporting Scenario.session_down Scenario.reqA
                    empty_store)).
    reflexivity.
  - split; [reflexivity|]. split; [reflexivity|].
    destruct (proj2 (post_orders_failure_reporting Scenario.commit_fails Scenario.reqA
                       empty_store) tt eq_refl) as (Hnot & _ & Hlog).
    assert (Hc : created (post_orders Scenario.commit_fails Scenario.reqA
                            empty_store).1.1 = false).
    { apply (Hnot CommitTransaction (ThrownError "MongoServerError" "WriteConflict")).
      reflexivity. }
    split; [exact Hc|].
    destruct (Hlog Hc) as (cause & Htx & ->).
    vm_compute in Htx. by injection Htx as <-.
Defined.

(** The failing input of C7, evaluated: the session cannot be opened, the
    promise of the handler rejects, and neither the 500 nor any other
    response is sent; so it is not true that every request that is not
    answered 201 is answered 500. *)
Example post_orders_session_down_unanswered :
  post_orders Scenario.session_down Scenario.reqA empty_store =
    (Unhandled (ThrownError "MongoNotConnectedError" "Client must be connected"),
     empty_store, []) /\
  ~ (forall env req db,
       created (post_orders env req db).1.1 = false ->
       (post_orders env req db).1.1 =
         Responded (mkResponse 500 (JObj [("error", JStr "OrderCreationFailed")]))).
Proof.
  split; [reflexivity|].
  intros H. specialize (H Scenario.session_down Scenario.reqA empty_store eq_refl).
  discriminate H.
Qed.

(** ** [GET /orders/:id] *)




(** ** The worker: store calls *)

(** A status write that finds its record with the filtered status. *)
Lemma OutboxEvent_updateOne_hit now id fs s e db d :
  outbox db !! id = Some d ->
  (forall s0, fs = Some s0 -> ev_status (st_fields d) = s0) ->
  OutboxEvent_updateOne None now id fs s e db =
    Fulfilled (mkStore (orders db) (orderItems db)
                 (<[id := set_updatedAt now (set_status_lastError d s e)]> (outbox db))).
Proof.
  intros Hd Hfs. unfold OutboxEvent_updateOne. rewrite Hd.
  destruct fs as [s0|]; [|reflexivity].
  by rewrite (bool_decide_eq_true_2 _ (Hfs s0 eq_refl)).
Qed.

(** A status write whose filter asks for a status the record does not have
    writes nothing. *)
Lemma OutboxEvent_updateOne_guard fault now id s0 s e db db' d :
  outbox db !! id = Some d ->
  ev_status (st_fields d) <> s0 ->
  OutboxEvent_updateOne fault now id (Some s0) s e db = Fulfilled db' ->
  db' = db.
Proof.
  intros Hd Hs. unfold OutboxEvent_updateOne. rewrite Hd.
  destruct fault; [discriminate|].
  rewrite (bool_decide_eq_false_2 _ Hs). by intros [= <-].
Qed.

(** The batch a tick reads: at most [n] records, each stored with the asked
    status, no record twice, in ascending creation time, and no record with
    that status that stays behind is older than a selected one. *)
Lemma OutboxEvent_find_sort_limit_Fulfilled fault s n db batch :
  OutboxEvent_find_sort_limit fault s n db = Fulfilled batch ->
  length batch <= n /\
  NoDup (map _id batch) /\
  (forall e, e ∈ batch ->
     outbox db !! _id e = Some (snd e) /\ ev_status (fields e) = s) /\
  StronglySorted createdAt_le batch /\
  (forall e, outbox db !! _id e = Some (snd e) -> ev_status (fields e) = s ->
     e ∉ batch ->
     length batch = n /\ forall b, b ∈ batch -> createdAt_le b e).
Proof.
  unfold OutboxEvent_find_sort_limit. destruct fault; [discriminate|].
  intros [= <-].
  set (pending := filter (fun d : Doc OutboxEvent => ev_status (fields d) = s)
                         (map_to_list (outbox db))).
  set (sorted := merge_sort createdAt_le pending).
  assert (Hperm : sorted ≡ₚ pending) by apply merge_sort_Permutation.
  assert (Htrans : Transitive createdAt_le).
  { intros x y z. unfold createdAt_le. lia. }
  assert (Htotal : Total createdAt_le).
  { intros x y. unfold createdAt_le. lia. }
  assert (Hsorted : StronglySorted createdAt_le sorted).
  { by apply StronglySorted_merge_sort. }
  assert (Hin : forall e, e ∈ sorted <->
            outbox db !! _id e = Some (snd e) /\ ev_status (fields e) = s).
  { intros [k v]. rewrite Hperm. unfold pending. rewrite list_elem_of_filter.
    split; [intros [? ?%elem_of_map_to_list]|intros [?%elem_of_map_to_list ?]]; done. }
  split; [rewrite length_take; lia|].
  split.
  { apply (sublist_NoDup _ (map _id sorted)).
    - rewrite Hperm. apply (sublist_NoDup _ (map _id (map_to_list (outbox db)))).
      + apply NoDup_fst_map_to_list.
      + apply fmap_sublist, sublist_filter.
    - apply fmap_sublist, sublist_take. }
  split.
  { intros e He. apply Hin. eapply elem_of_sublist; [exact He|]. apply sublist_take. }
  split.
  { rewrite <- (take_drop n sorted) in Hsorted.
    by apply StronglySorted_app_1_l in Hsorted. }
  intros e He Hs Hnot.
  assert (Hes : e ∈ sorted) by (by apply Hin).
  rewrite <- (take_drop n sorted) in Hes, Hsorted.
  apply elem_of_app in Hes as [?|Hdrop]; [done|].
  split.
  - rewrite length_take. apply Nat.min_l.
    destruct (decide (n <= length sorted)) as [|Hlt]; [done|].
    rewrite drop_ge in Hdrop by lia. by apply elem_of_nil in Hdrop.
  - intros b Hb. by eapply StronglySorted_app_1_elem_of.
Qed.

(** ** The worker: the loop *)

(** One turn of the loop on an event that is stored and PENDING: the verdict
    decides; the record is settled and the loop goes on, or the loop is left. *)
Lemma process_events_cons publisher env evt events db d :
  outbox db !! _id evt = Some d ->
  ev_status (st_fields d) = PENDING ->
  match verdict publisher env evt with
  | Abort err =>
      process_events publisher env (evt :: events) db = (Some err, db, [Publish evt])
  | v =>
      exists lvl ctx msg,
        process_events publisher env (evt :: events) db =
          let '(r, db', effs) :=
            process_events publisher env events
              (mkStore (orders db) (orderItems db)
                       (<[_id evt := settle (write_time env (_id evt)) v d]> (outbox db))) in
          (r, db', Publish evt :: Log lvl ctx msg :: effs)
  end.
Proof.
  intros Hd Hp. unfold verdict. cbn [process_events]. unfold try_send.
  destruct (publisher evt) as [b|err].
  - destruct (sent_write_rejects env (_id evt)) as [err|] eqn:S.
    + cbn [OutboxEvent_updateOne].
      destruct (failed_write_rejects env (_id evt)) as [err'|] eqn:F.
      * reflexivity.
      * rewrite (OutboxEvent_updateOne_hit _ _ None FAILED _ db d Hd) by done.
        by eexists _, _, _.
    + rewrite (OutboxEvent_updateOne_hit _ _ (Some PENDING) SENT None db d Hd)
        by (by intros ? [= <-]).
      by eexists _, _, _.
  - destruct (failed_write_rejects env (_id evt)) as [err'|] eqn:F.
    + reflexivity.
    + rewrite (OutboxEvent_updateOne_hit _ _ None FAILED _ db d Hd) by done.
      by eexists _, _, _.
Qed.

(** The loop on a batch of distinct events that are stored and PENDING: the
    events up to the first abort are settled by their verdicts, in order;
    every other record and the two other collections are untouched. *)
Lemma process_events_spec publisher env events db :
  NoDup (map _id events) ->
  (forall e, e ∈ events ->
     outbox db !! _id e = Some (snd e) /\ ev_status (fields e) = PENDING) ->
  let '(r, db', effs) := process_events publisher env events db in
  exists settled rest,
    events = settled ++ rest /\
    (forall e, e ∈ settled -> forall err, verdict publisher env e <> Abort err) /\
    match rest with
    | [] => r = None /\ published effs = settled
    | e :: _ => verdict publisher env e = match r with
                                          | Some err => Abort err
                                          | None => MarkSent
                                          end /\
                r <> None /\ published effs = settled ++ [e]
    end /\
    orders db' = orders db /\
    orderItems db' = orderItems db /\
    (forall e, e ∈ settled ->
       outbox db' !! _id e = Some (settle (write_time env (_id e)) (verdict publisher env e) (snd e))) /\
    (forall id, id ∉ map _id settled -> outbox db' !! id = outbox db !! id).
Proof.
  revert db. induction events as [|evt events IH]; intros db Hnd Hin.
  - cbn. exists [], []. repeat split; try done.
    all: intros e He; by apply elem_of_nil in He.
  - change (NoDup (_id evt :: map _id events)) in Hnd.
    apply NoDup_cons in Hnd as [Hfresh Hnd].
    destruct (Hin evt) as [Hd Hp]; [left|].
    pose proof (process_events_cons publisher env evt events db _ Hd Hp) as Hstep.
    assert (Hgo : forall v, (forall err, v <> Abort err) -> v = verdict publisher env evt ->
      (exists lvl ctx msg,
        process_events publisher env (evt :: events) db =
          let '(r, db', effs) :=
            process_events publisher env events
              (mkStore (orders db) (orderItems db)
                       (<[_id evt := settle (write_time env (_id evt)) v (snd evt)]> (outbox db))) in
          (r, db', Publish evt :: Log lvl ctx msg :: effs)) ->
      let '(r, db', effs) := process_events publisher env (evt :: events) db in
      exists settled rest,
        evt :: events = settled ++ rest /\
        (forall e, e ∈ settled -> forall err, verdict publisher env e <> Abort err) /\
        match rest with
        | [] => r = None /\ published effs = settled
        | e :: _ => verdict publisher env e = match r with
                                              | Some err => Abort err
                                              | None => MarkSent
                                              end /\
                    r <> None /\ published effs = settled ++ [e]
        end /\
        orders db' = orders db /\
        orderItems db' = orderItems db /\
        (forall e, e ∈ settled ->
           outbox db' !! _id e = Some (settle (write_time env (_id e)) (verdict publisher env e) (snd e))) /\
        (forall id, id ∉ map _id settled -> outbox db' !! id = outbox db !! id)).
    { intros v Hv Ev (lvl & ctx & msg & ->).
      set (db1 := mkStore (orders db) (orderItems db)
                          (<[_id evt := settle (write_time env (_id evt)) v (snd evt)]> (outbox db))).
      specialize (IH db1 Hnd).
      destruct (process_events publisher env events db1) as [[r db'] effs].
      destruct IH as (settled & rest & -> & Hok & Hrest & Ho & Hi & Hset & Hother).
      { intros e He. destruct (Hin e) as [He1 He2]; [by right|]. split; [|done].
        cbn. rewrite lookup_insert_ne; [done|].
        intros Heq. apply Hfresh. rewrite Heq. by apply list_elem_of_fmap_2. }
      exists (evt :: settled), rest.
      split; [done|]. split.
      { intros e [->|He]%elem_of_cons; [by rewrite <- Ev|by apply Hok]. }
      split.
      { change (published (Publish evt :: Log lvl ctx msg :: effs))
          with (evt :: published effs).
        destruct rest as [|e rest].
        - destruct Hrest as [-> ->]. done.
        - destruct Hrest as (Hv' & Hr & ->). done. }
      split; [done|]. split; [done|]. split.
      { intros e [->|He]%elem_of_cons.
        - rewrite Hother.
          + cbn. rewrite lookup_insert_eq. by rewrite Ev.
          + intros Hmem. apply Hfresh. rewrite map_app.
            apply elem_of_app. by left.
        - by apply Hset. }
      intros id Hid. rewrite Hother.
      + cbn. rewrite lookup_insert_ne; [done|].
        intros <-. apply Hid. left.
      + intros Hmem. apply Hid. by right. }
    destruct (verdict publisher env evt) as [|m|err] eqn:V.
    + by apply (Hgo MarkSent).
    + by apply (Hgo (MarkFailed m)).
    + rewrite Hstep. exists [], (evt :: events).
      repeat split; try done.
      all: intros e He; by apply elem_of_nil in He.
Qed.

(** ** The worker: one tick *)

(** A tick whose batch read fails only logs. *)
Lemma tick_read_fails publisher env db err :
  find_pending_rejects env = Some err ->
  tick publisher env db = (db, [Log ERROR (CtxErr err) "outbox tick failed"]).
Proof. intros H. unfold tick, OutboxEvent_find_sort_limit. by rewrite H. Qed.

(** A tick is its batch read followed by [resume] on the store it read. *)
Lemma tick_resume publisher env db batch :
  OutboxEvent_find_sort_limit (find_pending_rejects env) PENDING BATCH db
    = Fulfilled batch ->
  tick publisher env db = resume publisher env batch db.
Proof. intros H. unfold tick, resume. by rewrite H. Qed.

(** A tick that read a batch: the events of the batch up to the first abort
    are settled by their verdicts, in order, and nothing else changes. *)
Lemma tick_spec publisher env db batch :
  OutboxEvent_find_sort_limit (find_pending_rejects env) PENDING BATCH db
    = Fulfilled batch ->
  let '(db', effs) := tick publisher env db in
  exists settled rest,
    batch = settled ++ rest /\
    (forall e, e ∈ settled -> forall err, verdict publisher env e <> Abort err) /\
    match rest with
    | [] => published effs = settled
    | e :: _ => (exists err, verdict publisher env e = Abort err) /\
                published effs = settled ++ [e]
    end /\
    orders db' = orders db /\
    orderItems db' = orderItems db /\
    (forall e, e ∈ settled ->
       outbox db' !! _id e = Some (settle (write_time env (_id e)) (verdict publisher env e) (snd e))) /\
    (forall id, id ∉ map _id settled -> outbox db' !! id = outbox db !! id).
Proof.
  intros Hfind. unfold tick. rewrite Hfind.
  apply OutboxEvent_find_sort_limit_Fulfilled in Hfind as (_ & Hnd & Hin & _ & _).
  pose proof (process_events_spec publisher env batch db Hnd Hin) as Hloop.
  destruct (process_events publisher env batch db) as [[r db'] effs].
  destruct Hloop as (settled & rest & -> & Hok & Hrest & Ho & Hi & Hset & Hother).
  assert (Hpub : forall l c m, published (effs ++ [Log l c m]) = published effs).
  { intros l c m. unfold published. rewrite omap_app. cbn. apply app_nil_r. }
  destruct r as [err|].
  - exists settled, rest. split; [done|]. split; [done|]. split; [|done].
    destruct rest as [|e rest]; [by destruct Hrest|].
    destruct Hrest as (Hv & _ & Hp). rewrite Hpub. split; [by exists err|done].
  - exists settled, rest. split; [done|]. split; [done|]. split; [|done].
    destruct rest as [|e rest]; [by destruct Hrest|].
    by destruct Hrest as (_ & Hr & _).
Qed.

(** A verdict is an abort only when the write of the [catch] block fails. *)
Lemma verdict_Abort publisher env evt err :
  verdict publisher env evt = Abort err ->
  failed_write_rejects env (_id evt) = Some err.
Proof.
  unfold verdict.
  destruct (publisher evt), (sent_write_rejects env (_id evt)),
    (failed_write_rejects env (_id evt)); congruence.
Qed.

(** ** Batch selection *)

(** C5. In every tick that reads its batch, the batch holds at most
    [BATCH = 50] events, all of them stored with status PENDING and none
    twice, in ascending creation time; a PENDING event is left out only when
    the batch is full, and then it is no older than any selected event.  The
    publisher is called on the events of the batch one after the other in
    that order: the calls of the tick are a prefix of the batch, and the whole
    batch unless a status write in a [catch] block fails. *)
Theorem tick_batch_oldest_first publisher env db batch :
  OutboxEvent_find_sort_limit (find_pending_rejects env) PENDING BATCH db
    = Fulfilled batch ->
  (length batch <= 50 /\
   NoDup (map _id batch) /\
   (forall e, e ∈ batch ->
      outbox db !! _id e = Some (snd e) /\ ev_status (fields e) = PENDING) /\
   StronglySorted (fun e1 e2 => (createdAt e1 <= createdAt e2)%Z) batch /\
   (forall e, outbox db !! _id e = Some (snd e) -> ev_status (fields e) = PENDING ->
      e ∉ batch ->
      length batch = 50 /\ forall b, b ∈ batch -> (createdAt b <= createdAt e)%Z)) /\
  published (tick publisher env db).2 `prefix_of` batch /\
  ((forall e, e ∈ batch -> failed_write_rejects env (_id e) = None) ->
   published (tick publisher env db).2 = batch).
Proof.
  intros Hfind. split.
  { exact (OutboxEvent_find_sort_limit_Fulfilled _ _ _ _ _ Hfind). }
  pose proof (tick_spec publisher env db batch Hfind) as H.
  destruct (tick publisher env db) as [db' effs]. cbn [snd].
  destruct H as (settled & rest & -> & _ & Hrest & _).
  destruct rest as [|e rest].
  - rewrite Hrest, app_nil_r. split; [done|]. done.
  - destruct Hrest as [[err Hv] ->]. split.
    + exists rest. by rewrite <- app_assoc.
    + intros Hok. apply verdict_Abort in Hv.
      rewrite Hok in Hv; [discriminate|]. apply elem_of_app. right. left.
Qed.

(** Witness of C5: the backlog, where event 2 is older than event 1 and
    event 3 is not PENDING. *)
Lemma tick_batch_oldest_first_witness :
  OutboxEvent_find_sort_limit (find_pending_rejects Scenario.steady) PENDING BATCH
      Scenario.backlog
    = Fulfilled [(2%N, Scenario.pending_event 10 "a2");
                 (1%N, Scenario.pending_event 20 "a1")] /\
  published (tick publish Scenario.steady Scenario.backlog).2
    = [(2%N, Scenario.pending_event 10 "a2"); (1%N, Scenario.pending_event 20 "a1")].
Proof.
  split; [vm_compute; reflexivity|].
  apply (tick_batch_oldest_first publish Scenario.steady Scenario.backlog).
  - vm_compute; reflexivity.
  - intros e _. reflexivity.
Defined.

(** ** Status transitions *)

(** Either the batch read of a tick is rejected, or it yields a batch. *)
Lemma tick_read_cases env db :
  (exists err, find_pending_rejects env = Some err) \/
  (exists batch,
     OutboxEvent_find_sort_limit (find_pending_rejects env) PENDING BATCH db
       = Fulfilled batch).
Proof.
  unfold OutboxEvent_find_sort_limit.
  destruct (find_pending_rejects env) as [err|]; [left|right]; eauto.
Qed.

Lemma same_event_refl d : same_event d d.
Proof. by repeat split. Qed.

Lemma same_event_settle now v d : same_event d (settle now v d).
Proof. destruct v; by repeat split. Qed.

(** One tick moves a stored event at most from PENDING to SENT or FAILED, and
    keeps everything but status and last error. *)
Lemma tick_evolves publisher env db id d :
  outbox db !! id = Some d ->
  exists d',
    outbox (tick publisher env db).1 !! id = Some d' /\
    same_event d d' /\
    one_way (ev_status (st_fields d)) (ev_status (st_fields d')) /\
    (ev_status (st_fields d) <> PENDING -> d' = d).
Proof.
  intros Hd. destruct (tick_read_cases env db) as [[err Hr]|[batch Hfind]].
  { rewrite (tick_read_fails _ _ _ _ Hr). exists d.
    split; [done|]. split; [apply same_event_refl|]. split; [by left|done]. }
  pose proof (tick_spec publisher env db batch Hfind) as H.
  apply OutboxEvent_find_sort_limit_Fulfilled in Hfind as (_ & _ & Hin & _ & _).
  destruct (tick publisher env db) as [db' effs]. cbn [fst].
  destruct H as (settled & rest & -> & Hok & _ & _ & _ & Hset & Hother).
  destruct (decide (id ∈ map _id settled)) as [Hmem|Hnot].
  - apply list_elem_of_fmap in Hmem as (e & -> & He).
    destruct (Hin e) as [Hst Hp]; [apply elem_of_app; by left|].
    assert (d = snd e) as -> by congruence.
    exists (settle (write_time env (_id e)) (verdict publisher env e) (snd e)).
    split; [by apply Hset|]. split; [apply same_event_settle|].
    unfold fields in Hp. split.
    + right. split; [done|].
      specialize (Hok e He). destruct (verdict publisher env e); cbn; eauto.
      by destruct (Hok err).
    + congruence.
  - exists d. rewrite (Hother id Hnot).
    split; [done|]. split; [apply same_event_refl|]. split; [by left|done].
Qed.

(** Along ticks that do not overlap, whatever the publisher and the store
    do, a stored OutboxEvent stays stored, and its status is the one it had
    or has moved from PENDING to SENT or to FAILED; a record that is SENT or
    FAILED is not written again. *)
Lemma ticks_status_one_way steps db id d :
  outbox db !! id = Some d ->
  exists d',
    outbox (ticks steps db) !! id = Some d' /\
    one_way (ev_status (st_fields d)) (ev_status (st_fields d')) /\
    (ev_status (st_fields d) <> PENDING -> d' = d).
Proof.
  revert db d. induction steps as [|[p env] steps IH]; intros db d Hd.
  - exists d. split; [done|]. split; [by left|done].
  - cbn [ticks].
    destruct (tick_evolves p env db id d Hd) as (d1 & Hd1 & _ & Hway1 & Hterm1).
    destruct (IH _ d1 Hd1) as (d2 & Hd2 & Hway2 & Hterm2).
    exists d2. split; [done|]. split.
    + destruct Hway1 as [E1|[Hp1 Hs1]].
      * by rewrite <- E1.
      * right. split; [done|].
        rewrite Hterm2; [done|]. destruct Hs1 as [->| ->]; done.
    + intros Hnp. rewrite Hterm2; rewrite (Hterm1 Hnp); done.
Qed.

(** C4.  The two status writes of the loop, on a record that is not PENDING
    any more.  The write of the [try] block carries the filter
    [status: "PENDING"]: on a record that is SENT or FAILED it writes
    nothing.  The write of the [catch] block carries no such filter: it makes
    FAILED whatever record is stored under the id, a SENT record too.  In
    ticks that do not overlap this cannot be seen, because the batch of a
    callback holds records that are PENDING when it is read; it is seen when
    two callbacks overlap.  On the backlog, with the shipped publisher: the
    first callback reads the batch of events 2 and 1 and is suspended; the
    second callback makes both SENT; the first goes on, its SENT write for
    event 2 is rejected, and its [catch] block makes event 2, which is SENT,
    FAILED. *)
Theorem failed_write_ignores_status :
  (forall publisher env evt db db' d,
     outbox db !! _id evt = Some d ->
     ev_status (st_fields d) <> PENDING ->
     try_send publisher env evt db = Fulfilled db' ->
     db' = db) /\
  (forall publisher env evt db d err,
     outbox db !! _id evt = Some d ->
     try_send publisher env evt db = Rejected err ->
     failed_write_rejects env (_id evt) = None ->
     outbox (resume publisher env [evt] db).1 !! _id evt
       = Some (set_updatedAt (write_time env (_id evt) FAILED)
                 (set_status_lastError d FAILED (Some (message_or_String err))))) /\
  (let first := Scenario.sent_write_fails in
   let second := Scenario.steady in
   let db := Scenario.backlog in
   OutboxEvent_find_sort_limit (find_pending_rejects first) PENDING BATCH db
     = Fulfilled [(2%N, Scenario.pending_event 10 "a2");
                  (1%N, Scenario.pending_event 20 "a1")] /\
   status_of db 2%N = Some PENDING /\
   status_of (tick publish second db).1 2%N = Some SENT /\
   status_of (overlapping publish first publish second db).1 2%N = Some FAILED /\
   status_of (overlapping publish first publish second db).1 1%N = Some SENT /\
   map _id (published (overlapping publish first publish second db).2)
     = [2%N; 1%N; 2%N; 1%N]).
Proof.
  split; [|split].
  - intros publisher env evt db db' d Hd Hnp. unfold try_send.
    destruct (publisher evt); [|discriminate].
    by apply (OutboxEvent_updateOne_guard _ _ _ _ _ _ _ _ d).
  - intros publisher env evt db d err Hd Htry Hok.
    unfold resume. cbn [process_events]. rewrite Htry, Hok.
    rewrite (OutboxEvent_updateOne_hit _ _ None FAILED _ db d Hd) by done.
    cbn. apply lookup_insert_eq.
  - repeat split; vm_compute; reflexivity.
Qed.

(** Witness of C4: event 2 of the backlog after a tick that made it SENT.
    The SENT write of a callback that still holds the event writes nothing,
    and when that write is rejected the [catch] block makes the SENT record
    FAILED. *)
Lemma failed_write_ignores_status_witness :
  let sent := (tick publish Scenario.steady Scenario.backlog).1 in
  let evt := (2%N, Scenario.pending_event 10 "a2") in
  let d := set_updatedAt 1700000060000
             (set_status_lastError (Scenario.pending_event 10 "a2") SENT None) in
  outbox sent !! _id evt = Some d /\
  ev_status (st_fields d) = SENT /\
  try_send publish Scenario.steady evt sent = Fulfilled sent /\
  try_send publish Scenario.sent_write_fails evt sent
    = Rejected (ThrownError "MongoNetworkError" "timed out") /\
  outbox (resume publish Scenario.sent_write_fails [evt] sent).1 !! _id evt
    = Some (set_updatedAt 1700000061000
              (set_status_lastError d FAILED (Some "timed out"))).
Proof.
  intros sent evt d.
  assert (Hd : outbox sent !! _id evt = Some d) by (vm_compute; reflexivity).
  destruct failed_write_ignores_status as (Hguard & Hcatch & _).
  split; [exact Hd|]. split; [reflexivity|]. split; [|split].
  - destruct (try_send publish Scenario.steady evt sent) as [db'|err] eqn:Htry.
    + f_equal. by apply (Hguard publish Scenario.steady evt sent db' d).
    + vm_compute in Htry. discriminate Htry.
  - vm_compute; reflexivity.
  - apply (Hcatch publish Scenario.sent_write_fails evt sent d
             (ThrownError "MongoNetworkError" "timed out") Hd);
      vm_compute; reflexivity.
Defined.

(** A request never touches a stored OutboxEvent. *)
Lemma post_orders_keeps_events env req db id d :
  outbox db !! id = Some d ->
  outbox (post_orders env req db).1.2 !! id = Some d.
Proof.
  intros Hd.
  destruct (post_orders_cases env req db)
    as [(err & _ & ->)|[(u & err & _ & _ & ->)|(u & effs & res & st & _ & T & ->)]];
    try done.
  apply create_order_transaction_Fulfilled in T
    as (_ & _ & _ & _ & He & (c & _ & ->) & _).
  destruct (decide (_id (written_event env req) = id)) as [<-|Hne]; [congruence|].
  cbn [fst snd outbox]. by rewrite lookup_insert_ne.
Qed.

(** The same along every run of the system, where requests and ticks
    alternate in any order: the status of a stored event only moves from
    PENDING to SENT or FAILED, and a settled record is never written again. *)
Lemma steps_status_one_way l db id d :
  outbox db !! id = Some d ->
  exists d',
    outbox (steps l db) !! id = Some d' /\
    one_way (ev_status (st_fields d)) (ev_status (st_fields d')) /\
    (ev_status (st_fields d) <> PENDING -> d' = d).
Proof.
  unfold steps. revert db d. induction l as [|s l IH]; intros db d Hd.
  - exists d. split; [done|]. split; [by left|done].
  - cbn [fold_left].
    assert (exists d1, outbox (step s db) !! id = Some d1 /\
              one_way (ev_status (st_fields d)) (ev_status (st_fields d1)) /\
              (ev_status (st_fields d) <> PENDING -> d1 = d))
      as (d1 & Hd1 & Hway1 & Hterm1).
    { destruct s as [env req|publisher env]; cbn [step].
      - exists d. split; [by apply post_orders_keeps_events|].
        split; [by left|done].
      - destruct (tick_evolves publisher env db id d Hd) as (d1 & ? & _ & ? & ?).
        by exists d1. }
    destruct (IH _ d1 Hd1) as (d2 & Hd2 & Hway2 & Hterm2).
    exists d2. split; [done|]. split.
    + destruct Hway1 as [E1|[Hp1 Hs1]].
      * by rewrite <- E1.
      * right. split; [done|].
        rewrite Hterm2; [done|]. destruct Hs1 as [->| ->]; done.
    + intros Hnp. rewrite Hterm2; rewrite (Hterm1 Hnp); done.
Qed.

(** ** Frame *)

(** What a tick does to the record under one id: nothing, or it settles a
    PENDING record as SENT without error or as FAILED with an error, and
    sets [updatedAt] to the time of that write. *)
Lemma tick_lookup publisher env db id :
  outbox (tick publisher env db).1 !! id = outbox db !! id \/
  exists d,
    outbox db !! id = Some d /\ ev_status (st_fields d) = PENDING /\
    (outbox (tick publisher env db).1 !! id
       = Some (set_updatedAt (write_time env id SENT) (set_status_lastError d SENT None)) \/
     exists m, outbox (tick publisher env db).1 !! id
               = Some (set_updatedAt (write_time env id FAILED)
                         (set_status_lastError d FAILED (Some m)))).
Proof.
  destruct (tick_read_cases env db) as [[err Hr]|[batch Hfind]].
  { rewrite (tick_read_fails _ _ _ _ Hr). by left. }
  pose proof (tick_spec publisher env db batch Hfind) as H.
  apply OutboxEvent_find_sort_limit_Fulfilled in Hfind as (_ & _ & Hin & _ & _).
  destruct (tick publisher env db) as [db' effs]. cbn [fst].
  destruct H as (settled & rest & -> & Hok & _ & _ & _ & Hset & Hother).
  destruct (decide (id ∈ map _id settled)) as [Hmem|Hnot]; [|left; by apply Hother].
  apply list_elem_of_fmap in Hmem as (e & -> & He). right.
  destruct (Hin e) as [Hst Hp]; [apply elem_of_app; by left|].
  exists (snd e). split; [done|]. split; [done|].
  rewrite (Hset e He). specialize (Hok e He).
  destruct (verdict publisher env e) as [|m|err]; cbn [settle].
  - by left.
  - right. by exists m.
  - by destruct (Hok err).
Qed.

(** A status write changes at most status, last error and [updatedAt] of
    one stored event. *)
Lemma OutboxEvent_updateOne_only_settles fault now id fs s e db db' :
  OutboxEvent_updateOne fault now id fs s e db = Fulfilled db' ->
  only_settles db db'.
Proof.
  assert (Hrefl : only_settles db db).
  { split; [done|]. split; [done|]. intros k.
    destruct (outbox db !! k); [apply same_event_refl|done]. }
  unfold OutboxEvent_updateOne. destruct fault; [discriminate|].
  destruct (outbox db !! id) as [d|] eqn:Hd; [|by intros [= <-]].
  destruct (match fs with Some s0 => _ | None => _ end); [|by intros [= <-]].
  intros [= <-]. split; [done|]. split; [done|]. intros k. cbn [outbox].
  destruct (decide (k = id)) as [->|Hne].
  - rewrite Hd, lookup_insert_eq. by repeat split.
  - rewrite lookup_insert_ne by done.
    destruct (outbox db !! k); [apply same_event_refl|done].
Qed.

Lemma only_settles_trans db1 db2 db3 :
  only_settles db1 db2 -> only_settles db2 db3 -> only_settles db1 db3.
Proof.
  intros (Ho & Hi & He) (Ho' & Hi' & He').
  split; [congruence|]. split; [congruence|]. intros k.
  specialize (He k). specialize (He' k).
  destruct (outbox db1 !! k), (outbox db2 !! k), (outbox db3 !! k); try done.
  destruct He as (? & ? & ? & ?), He' as (? & ? & ? & ?).
  repeat split; congruence.
Qed.

(** The loop on any batch and any store, the batch of an earlier read
    included: it changes at most status, last error and [updatedAt] of
    stored events. *)
Lemma process_events_only_settles publisher env events db :
  only_settles db (process_events publisher env events db).1.2.
Proof.
  assert (Hrefl : forall db, only_settles db db).
  { intros db0. split; [done|]. split; [done|]. intros k.
    destruct (outbox db0 !! k); [apply same_event_refl|done]. }
  revert db. induction events as [|evt events IH]; intros db; [apply Hrefl|].
  cbn [process_events].
  destruct (try_send publisher env evt db) as [db1|err] eqn:Htry.
  - specialize (IH db1).
    destruct (process_events publisher env events db1) as [[r db'] effs].
    cbn [fst snd] in *. apply (only_settles_trans _ db1); [|done].
    unfold try_send in Htry. destruct (publisher evt); [|discriminate].
    by apply OutboxEvent_updateOne_only_settles in Htry.
  - destruct (OutboxEvent_updateOne _ _ _ _ _ _ db) as [db1|err'] eqn:Hw;
      [|apply Hrefl].
    specialize (IH db1).
    destruct (process_events publisher env events db1) as [[r db'] effs].
    cbn [fst snd] in *. apply (only_settles_trans _ db1); [|done].
    by apply OutboxEvent_updateOne_only_settles in Hw.
Qed.

(** C9, as the code has it.  The handler of [POST /orders] never calls the
    publisher: whatever happens, its effects besides the store are log
    lines.  A tick of the worker leaves the Orders and the OrderItems as
    they are and neither adds nor removes an OutboxEvent.  Of a stored
    OutboxEvent it keeps [createdAt], the type, the aggregate id and the
    payload: a record is either left as it is, or it has got a status, the
    last error that goes with that write, and, from [timestamps: true], the
    time of that write as [updatedAt].  The same frame holds for a callback
    that goes on with a batch it read earlier, on whatever store it finds. *)
Theorem writer_and_relay_frames :
  (forall env req db, published (post_orders env req db).2 = []) /\
  (forall publisher env db,
     let db' := (tick publisher env db).1 in
     orders db' = orders db /\
     orderItems db' = orderItems db /\
     dom (outbox db') = dom (outbox db) /\
     (forall id d d',
        outbox db !! id = Some d -> outbox db' !! id = Some d' ->
        (st_createdAt d' = st_createdAt d /\
         ev_type (st_fields d') = ev_type (st_fields d) /\
         aggregateId (st_fields d') = aggregateId (st_fields d) /\
         payload (st_fields d') = payload (st_fields d)) /\
        (d' = d \/
         d' = set_updatedAt (write_time env id (ev_status (st_fields d')))
                (set_status_lastError d (ev_status (st_fields d'))
                   (lastError (st_fields d')))))) /\
  (forall publisher env batch db,
     let db' := (resume publisher env batch db).1 in
     orders db' = orders db /\
     orderItems db' = orderItems db /\
     dom (outbox db') = dom (outbox db) /\
     (forall id d d',
        outbox db !! id = Some d -> outbox db' !! id = Some d' ->
        st_createdAt d' = st_createdAt d /\
        ev_type (st_fields d') = ev_type (st_fields d) /\
        aggregateId (st_fields d') = aggregateId (st_fields d) /\
        payload (st_fields d') = payload (st_fields d))).
Proof.
  split; [|split].
  - intros env req db.
    destruct (post_orders_cases env req db)
      as [(err & _ & ->)|[(u & err & _ & _ & ->)|(u & effs & res & st & _ & T & ->)]];
      try reflexivity.
    by apply create_order_transaction_Fulfilled in T as (_ & _ & _ & _ & _ & _ & -> & _).
  - intros publisher env db db'.
    assert (Hsame : orders db' = orders db /\ orderItems db' = orderItems db).
    { subst db'. destruct (tick_read_cases env db) as [[err Hr]|[batch Hfind]].
      - by rewrite (tick_read_fails _ _ _ _ Hr).
      - pose proof (tick_spec publisher env db batch Hfind) as H.
        destruct (tick publisher env db) as [db1 effs].
        by destruct H as (? & ? & _ & _ & _ & ? & ? & _). }
    destruct Hsame as [Ho Hi]. split; [done|]. split; [done|]. split.
    + apply set_eq. intros id. rewrite !elem_of_dom. split.
      * intros [d' Hd']. destruct (outbox db !! id) as [d|] eqn:Hd; [by eexists|].
        exfalso. revert Hd'. subst db'.
        destruct (tick_lookup publisher env db id) as [->|(d & Hd0 & _)]; congruence.
      * intros [d Hd].
        destruct (tick_evolves publisher env db id d Hd) as (d' & Hd' & _).
        by exists d'.
    + intros id d d' Hd Hd'. split.
      * destruct (tick_evolves publisher env db id d Hd) as (d1 & Hd1 & Hsame & _).
        subst db'. rewrite Hd1 in Hd'. injection Hd' as <-. exact Hsame.
      * subst db'.
        destruct (tick_lookup publisher env db id)
          as [E|(d0 & Hd0 & Hp & [E|[m E]])];
          rewrite E in Hd'.
        -- left. congruence.
        -- right. assert (d0 = d) as -> by congruence. by injection Hd' as <-.
        -- right. assert (d0 = d) as -> by congruence. by injection Hd' as <-.
  - intros publisher env batch db db'.
    assert (H : only_settles db db').
    { subst db'. unfold resume.
      pose proof (process_events_only_settles publisher env batch db) as H.
      destruct (process_events publisher env batch db) as [[[err|] db1] effs]; exact H. }
    destruct H as (Ho & Hi & He). split; [done|]. split; [done|]. split.
    + apply set_eq. intros id. rewrite !elem_of_dom. specialize (He id).
      destruct (outbox db !! id), (outbox db' !! id); try done.
      all: split; intros [? ?]; by eauto.
    + intros id d d' Hd Hd'. specialize (He id). by rewrite Hd, Hd' in He.
Qed.

(** Counterexample to C9 as stated: a tick changes more of a stored
    OutboxEvent than its status and its last error.  In a tick on the
    backlog, event 2 gets the time of the status write as [updatedAt]; the
    record after the tick is not the record before it with another status
    and last error. *)
Lemma tick_rewrites_updatedAt :
  let db' := (tick publish Scenario.steady Scenario.backlog).1 in
  st_updatedAt <$> outbox Scenario.backlog !! 2%N = Some 10%Z /\
  st_updatedAt <$> outbox db' !! 2%N = Some 1700000060000%Z /\
  ~ (forall publisher env db id d d',
       outbox db !! id = Some d ->
       outbox (tick publisher env db).1 !! id = Some d' ->
       d' = set_status_lastError d (ev_status (st_fields d')) (lastError (st_fields d'))).
Proof.
  intros db'. split; [vm_compute; reflexivity|]. split; [vm_compute; reflexivity|].
  intros H.
  specialize (H publish Scenario.steady Scenario.backlog 2%N
                (Scenario.pending_event 10 "a2")
                (set_updatedAt 1700000060000
                   (set_status_lastError (Scenario.pending_event 10 "a2") SENT None))).
  discriminate H; vm_compute; reflexivity.
Qed.

(** ** Failure isolation *)

(** A tick in which no verdict is an abort settles its whole batch. *)
Lemma tick_all_settled publisher env db batch :
  OutboxEvent_find_sort_limit (find_pending_rejects env) PENDING BATCH db
    = Fulfilled batch ->
  (forall e, e ∈ batch -> forall err, verdict publisher env e <> Abort err) ->
  published (tick publisher env db).2 = batch /\
  (forall e, e ∈ batch ->
     outbox (tick publisher env db).1 !! _id e
       = Some (settle (write_time env (_id e)) (verdict publisher env e) (snd e))).
Proof.
  intros Hfind Hok. pose proof (tick_spec publisher env db batch Hfind) as H.
  destruct (tick publisher env db) as [db' effs]. cbn [fst snd].
  destruct H as (settled & rest & -> & _ & Hrest & _ & _ & Hset & _).
  destruct rest as [|e rest].
  - rewrite app_nil_r in *. by split.
  - destruct Hrest as [[err Hv] _]. exfalso.
    apply (Hok e) in Hv; [done|]. apply elem_of_app. right. left.
Qed.

(** C6, as the code has it.  A tick whose batch read fails logs the error,
    writes nothing, and the ticks after it run as if it had not happened.  In
    a tick whose status writes in the [catch] block succeed, every event of
    the batch is handed to the publisher; an event for which the publisher
    throws becomes FAILED with [String(err?.message || err)] as its last
    error, and every event for which the publisher returns and the SENT write
    succeeds becomes SENT, whatever happened to the other events. *)
Theorem tick_failure_isolation :
  (forall publisher env db err,
     find_pending_rejects env = Some err ->
     tick publisher env db = (db, [Log ERROR (CtxErr err) "outbox tick failed"]) /\
     forall steps, ticks ((publisher, env) :: steps) db = ticks steps db) /\
  (forall publisher env db batch,
     OutboxEvent_find_sort_limit (find_pending_rejects env) PENDING BATCH db
       = Fulfilled batch ->
     (forall e, e ∈ batch -> failed_write_rejects env (_id e) = None) ->
     published (tick publisher env db).2 = batch /\
     (forall e err, e ∈ batch -> publisher e = Rejected err ->
        outbox (tick publisher env db).1 !! _id e
          = Some (set_updatedAt (write_time env (_id e) FAILED)
                    (set_status_lastError (snd e) FAILED
                       (Some (message_or_String err))))) /\
     (forall e b, e ∈ batch -> publisher e = Fulfilled b ->
        sent_write_rejects env (_id e) = None ->
        outbox (tick publisher env db).1 !! _id e
          = Some (set_updatedAt (write_time env (_id e) SENT)
                    (set_status_lastError (snd e) SENT None)))).
Proof.
  split.
  - intros publisher env db err Hr.
    pose proof (tick_read_fails publisher env db err Hr) as Ht.
    split; [done|]. intros steps. cbn [ticks]. by rewrite Ht.
  - intros publisher env db batch Hfind Hok.
    destruct (tick_all_settled publisher env db batch Hfind) as [Hpub Hset].
    { intros e He err Hv. apply verdict_Abort in Hv. rewrite Hok in Hv; done. }
    split; [done|]. split.
    + intros e err He Hp. rewrite (Hset e He). unfold verdict.
      by rewrite Hp, (Hok e He).
    + intros e b He Hp Hs. rewrite (Hset e He). unfold verdict.
      by rewrite Hp, Hs.
Qed.

(** Witness of C6: a tick that cannot read, and a tick on the backlog with a
    publisher that throws for the older event 2 and delivers event 1. *)
Lemma tick_failure_isolation_witness :
  (find_pending_rejects Scenario.read_fails
     = Some (ThrownError "MongoNetworkError" "connection closed") /\
   tick publish Scenario.read_fails Scenario.backlog
     = (Scenario.backlog,
        [Log ERROR (CtxErr (ThrownError "MongoNetworkError" "connection closed"))
             "outbox tick failed"])) /\
  (OutboxEvent_find_sort_limit (find_pending_rejects Scenario.steady) PENDING BATCH
       Scenario.backlog
     = Fulfilled [(2%N, Scenario.pending_event 10 "a2");
                  (1%N, Scenario.pending_event 20 "a1")] /\
   published (tick Scenario.throwing Scenario.steady Scenario.backlog).2
     = [(2%N, Scenario.pending_event 10 "a2"); (1%N, Scenario.pending_event 20 "a1")] /\
   outbox (tick Scenario.throwing Scenario.steady Scenario.backlog).1 !! 2%N
     = Some (set_updatedAt 1700000060000
               (set_status_lastError (Scenario.pending_event 10 "a2") FAILED
                  (Some "broker unavailable"))) /\
   outbox (tick Scenario.throwing Scenario.steady Scenario.backlog).1 !! 1%N
     = Some (set_updatedAt 1700000060000
               (set_status_lastError (Scenario.pending_event 20 "a1") SENT None))).
Proof.
  destruct tick_failure_isolation as [Hread Hloop]. split.
  - split; [reflexivity|].
    apply (Hread publish Scenario.read_fails Scenario.backlog). reflexivity.
  - split; [vm_compute; reflexivity|].
    destruct (Hloop Scenario.throwing Scenario.steady Scenario.backlog
                [(2%N, Scenario.pending_event 10 "a2");
                 (1%N, Scenario.pending_event 20 "a1")])
      as (Hpub & Hfailed & Hsent).
    + vm_compute; reflexivity.
    + intros e _. reflexivity.
    + split; [exact Hpub|]. split.
      * apply (Hfailed (2%N, Scenario.pending_event 10 "a2")
                 (ThrownError "Error" "broker unavailable")); [left|reflexivity].
      * apply (Hsent (1%N, Scenario.pending_event 20 "a1") true);
          [right; left|reflexivity|reflexivity].
Defined.

(** Counterexample to C6 as stated.  A publisher that signals failure by its
    result is not noticed: its events become SENT.  And when the publisher
    throws and the FAILED write fails too, the event stays PENDING without an
    error and the tick stops: the next event of the batch is not handed to
    the publisher. *)
Lemma tick_ignores_publish_result :
  ((forall e, Scenario.refusing e = Fulfilled false) /\
   status_of (tick Scenario.refusing Scenario.steady Scenario.backlog).1 2%N = Some SENT /\
   status_of (tick Scenario.refusing Scenario.steady Scenario.backlog).1 1%N = Some SENT) /\
  (Scenario.throwing (2%N, Scenario.pending_event 10 "a2")
     = Rejected (ThrownError "Error" "broker unavailable") /\
   outbox (tick Scenario.throwing Scenario.status_writes_fail Scenario.backlog).1 !! 2%N
     = Some (Scenario.pending_event 10 "a2") /\
   published (tick Scenario.throwing Scenario.status_writes_fail Scenario.backlog).2
     = [(2%N, Scenario.pending_event 10 "a2")] /\
   status_of (tick Scenario.throwing Scenario.status_writes_fail Scenario.backlog).1 1%N
     = Some PENDING).
Proof. repeat split; vm_compute; reflexivity. Qed.

(** ** The shipped publisher *)

(** With [publish], a tick makes an event FAILED only when the SENT write of
    that event is rejected. *)
Lemma tick_publish_FAILED env db id :
  status_of (tick publish env db).1 id = Some FAILED ->
  status_of db id = Some FAILED \/ sent_write_rejects env id <> None.
Proof.
  unfold status_of.
  destruct (tick_read_cases env db) as [[err Hr]|[batch Hfind]].
  { rewrite (tick_read_fails _ _ _ _ Hr). by left. }
  pose proof (tick_spec publish env db batch Hfind) as H.
  destruct (tick publish env db) as [db' effs]. cbn [fst].
  destruct H as (settled & rest & -> & Hok & _ & _ & _ & Hset & Hother).
  destruct (decide (id ∈ map _id settled)) as [Hmem|Hnot].
  - apply list_elem_of_fmap in Hmem as (e & -> & He).
    rewrite (Hset e He). unfold verdict, publish.
    destruct (sent_write_rejects env (_id e)); [by right|].
    cbn. discriminate.
  - rewrite (Hother id Hnot). by left.
Qed.

(** C10, as the code has it.  [publish] resolves to [true] for every event
    and never throws.  In a tick that reads its batch and whose SENT writes
    succeed, every selected event is handed to [publish] and becomes SENT
    with no last error.  With [publish], a tick makes an event FAILED only
    when the SENT write of that event is rejected (the [catch] block also
    guards that write), and so it is along all the ticks of [run]. *)
Theorem run_tick_marks_sent :
  (forall evt, publish evt = Fulfilled true) /\
  (forall env db batch,
     OutboxEvent_find_sort_limit (find_pending_rejects env) PENDING BATCH db
       = Fulfilled batch ->
     (forall e, e ∈ batch -> sent_write_rejects env (_id e) = None) ->
     published (tick publish env db).2 = batch /\
     (forall e, e ∈ batch ->
        outbox (tick publish env db).1 !! _id e
          = Some (set_updatedAt (write_time env (_id e) SENT)
                    (set_status_lastError (snd e) SENT None)))) /\
  (forall env db id,
     status_of (tick publish env db).1 id = Some FAILED ->
     status_of db id = Some FAILED \/ sent_write_rejects env id <> None) /\
  (forall envs db id,
     status_of (run envs db) id = Some FAILED ->
     status_of db id = Some FAILED \/
     exists env, env ∈ envs /\ sent_write_rejects env id <> None).
Proof.
  split; [done|]. split; [|split].
  - intros env db batch Hfind Hok.
    destruct (tick_all_settled publish env db batch Hfind) as [Hpub Hset].
    { intros e He err. unfold verdict, publish. by rewrite (Hok e He). }
    split; [done|]. intros e He. rewrite (Hset e He).
    unfold verdict, publish. by rewrite (Hok e He).
  - apply tick_publish_FAILED.
  - unfold run. intros envs. induction envs as [|env envs IH]; intros db id Hf.
    + by left.
    + cbn [map ticks] in Hf. apply IH in Hf as [Hf|(env' & Hin & Hr)].
      * apply tick_publish_FAILED in Hf as [Hf|Hr]; [by left|].
        right. exists env. split; [left|done].
      * right. exists env'. split; [by right|done].
Qed.

(** Witness of C10: the backlog in a tick without store failures. *)
Lemma run_tick_marks_sent_witness :
  OutboxEvent_find_sort_limit (find_pending_rejects Scenario.steady) PENDING BATCH
      Scenario.backlog
    = Fulfilled [(2%N, Scenario.pending_event 10 "a2");
                 (1%N, Scenario.pending_event 20 "a1")] /\
  published (tick publish Scenario.steady Scenario.backlog).2
    = [(2%N, Scenario.pending_event 10 "a2"); (1%N, Scenario.pending_event 20 "a1")] /\
  outbox (tick publish Scenario.steady Scenario.backlog).1 !! 2%N
    = Some (set_updatedAt 1700000060000
              (set_status_lastError (Scenario.pending_event 10 "a2") SENT None)) /\
  outbox (tick publish Scenario.steady Scenario.backlog).1 !! 1%N
    = Some (set_updatedAt 1700000060000
              (set_status_lastError (Scenario.pending_event 20 "a1") SENT None)).
Proof.
  split; [vm_compute; reflexivity|].
  destruct (proj1 (proj2 run_tick_marks_sent) Scenario.steady Scenario.backlog
              [(2%N, Scenario.pending_event 10 "a2");
               (1%N, Scenario.pending_event 20 "a1")])
    as [Hpub Hsent].
  - vm_compute; reflexivity.
  - intros e _. reflexivity.
  - split; [exact Hpub|]. split.
    + apply (Hsent (2%N, Scenario.pending_event 10 "a2")). left.
    + apply (Hsent (1%N, Scenario.pending_event 20 "a1")). right; left.
Defined.

(** Counterexample to C10 as stated: with the shipped [publish], a selected
    PENDING event becomes FAILED when its SENT write is rejected. *)
Lemma run_tick_reaches_failed :
  publish (2%N, Scenario.pending_event 10 "a2") = Fulfilled true /\
  status_of Scenario.backlog 2%N = Some PENDING /\
  outbox (tick publish Scenario.sent_write_fails Scenario.backlog).1 !! 2%N
    = Some (set_updatedAt 1700000061000
              (set_status_lastError (Scenario.pending_event 10 "a2") FAILED
                 (Some "timed out"))).
Proof. repeat split; vm_compute; reflexivity. Qed.

(** ** The scenarios of the specification, evaluated *)

(** Scenario B: a failure after the Order insert and before the OutboxEvent
    insert leaves no Order, no OrderItem and no OutboxEvent. *)
Example scenario_B :
  post_orders Scenario.outbox_insert_fails Scenario.reqA empty_store =
    (Responded (mkResponse 500 (JObj [("error", JStr "OrderCreationFailed")])),
     empty_store,
     [Log ERROR (CtxErr (ThrownString "injected")) "order creation failed"]).
Proof. reflexivity. Qed.

(** Scenario C: with a publisher that always throws, the selected PENDING
    events become FAILED with a last error, and the next tick selects
    nothing. *)
Example scenario_C :
  let db' := (tick Scenario.always_throwing Scenario.steady Scenario.backlog).1 in
  outbox db' !! 1%N
    = Some (set_updatedAt 1700000060000
              (set_status_lastError (Scenario.pending_event 20 "a1") FAILED
                 (Some "broker unavailable"))) /\
  outbox db' !! 2%N
    = Some (set_updatedAt 1700000060000
              (set_status_lastError (Scenario.pending_event 10 "a2") FAILED
                 (Some "broker unavailable"))) /\
  OutboxEvent_find_sort_limit None PENDING BATCH db' = Fulfilled [] /\
  tick publish Scenario.steady db' = (db', []).
Proof. repeat split; vm_compute; reflexivity. Qed.

(** * Further properties of the code *)

(** ** The string form of an id *)

Lemma hex_value_hex_digit d :
  (d < 16)%N -> hex_value (hex_digit d) = Some d.
Proof.
  intros Hd.
  assert (Hcases : d ∈ [0; 1; 2; 3; 4; 5; 6; 7; 8; 9; 10; 11; 12; 13; 14; 15]%N).
  { destruct d as [|p]; [set_solver|].
    do 4 (destruct p as [p|p|]; try (cbn in Hd; lia); try set_solver). }
  repeat (apply elem_of_cons in Hcases as [->|Hcases]; [reflexivity|]).
  by apply elem_of_nil in Hcases.
Qed.

(** Reading back the digits written in front of a string. *)
Lemma parse_hex_hex_digits w n acc a :
  parse_hex (hex_digits w n acc) a = parse_hex acc (a * 16 ^ N.of_nat w + n mod 16 ^ N.of_nat w)%N.
Proof.
  revert n acc. induction w as [|w IH]; intros n acc.
  - cbn [hex_digits]. f_equal. change (N.of_nat 0) with 0%N.
    rewrite N.pow_0_r, N.mod_1_r. lia.
  - cbn [hex_digits]. rewrite IH. cbn [parse_hex].
    rewrite hex_value_hex_digit by (apply N.mod_lt; lia).
    f_equal. rewrite Nat2N.inj_succ, N.pow_succ_r'.
    rewrite (N.Div0.mod_mul_r n 16 (16 ^ N.of_nat w)). lia.
Qed.

Lemma length_hex_digits w n acc :
  String.length (hex_digits w n acc) = w + String.length acc.
Proof.
  revert n acc. induction w as [|w IH]; intros n acc; [reflexivity|].
  cbn [hex_digits]. rewrite IH. cbn. lia.
Qed.

(** The cast of the string form of a 12-byte id gives the id back. *)
Lemma castObjectId_String_of_ObjectId id :
  (id < 2 ^ 96)%N -> castObjectId (String_of_ObjectId id) = Some id.
Proof.
  intros Hid. unfold castObjectId, String_of_ObjectId.
  rewrite length_hex_digits. cbn [String.length Nat.add Nat.eqb].
  rewrite parse_hex_hex_digits. cbn [parse_hex]. f_equal.
  change (16 ^ N.of_nat 24)%N with (2 ^ 96)%N.
  rewrite N.mod_small by done. lia.
Qed.

(** ** Requests and ticks, as store transformers *)

(** The store after a request: the old store, or the old store with the
    documents of the request added under unused ids. *)
Lemma post_orders_result env req db :
  (created (post_orders env req db).1.1 = false /\
   (post_orders env req db).1.2 = db) \/
  (created (post_orders env req db).1.1 = true /\
   (post_orders env req db).1.2 =
     mkStore (<[_id (written_order env req) := snd (written_order env req)]> (orders db))
             (list_to_map (written_items env req) ∪ orderItems db)
             (<[_id (written_event env req) := snd (written_event env req)]> (outbox db)) /\
   orders db !! _id (written_order env req) = None /\
   outbox db !! _id (written_event env req) = None /\
   NoDup (map _id (written_items env req)) /\
   (forall d, d ∈ written_items env req -> orderItems db !! _id d = None) /\
   validate_Order (fields (written_order env req)) = true /\
   forallb validate_OrderItem (map fields (written_items env req)) = true /\
   (forall c, rejects env c = None) /\
   (exists u, startSession env = Fulfilled u)).
Proof.
  destruct (post_orders_cases env req db)
    as [(err & _ & ->)|[(u & err & _ & _ & ->)|(u & effs & res & st & Hs & T & ->)]];
    [by left|by left|right].
  apply create_order_transaction_Fulfilled in T
    as (Hr & Vo & Vi & Ho & He & (c & Hc & ->) & _ & ->).
  apply insert_docs_Fulfilled in Hc as (-> & Hnd & Hfresh).
  cbn [fst snd created res_status Nat.eqb].
  repeat split; try done. by exists u.
Qed.

(** A request calls no publisher. *)
Lemma post_orders_publishes_nothing env req db :
  published (post_orders env req db).2 = [].
Proof.
  destruct (post_orders_cases env req db)
    as [(err & _ & ->)|[(u & err & _ & _ & ->)|(u & effs & res & st & _ & T & ->)]];
    try reflexivity.
  by apply create_order_transaction_Fulfilled in T as (_ & _ & _ & _ & _ & _ & -> & _).
Qed.

(** A tick leaves the Orders and the OrderItems alone. *)
Lemma tick_keeps_collections publisher env db :
  orders (tick publisher env db).1 = orders db /\
  orderItems (tick publisher env db).1 = orderItems db.
Proof.
  destruct (tick_read_cases env db) as [[err Hr]|[batch Hfind]].
  - by rewrite (tick_read_fails _ _ _ _ Hr).
  - pose proof (tick_spec publisher env db batch Hfind) as H.
    destruct (tick publisher env db) as [db1 effs].
    by destruct H as (? & ? & _ & _ & _ & ? & ? & _).
Qed.

(** The events a tick hands to the publisher are stored and PENDING when the
    tick starts, and no event is handed over twice. *)
Lemma tick_published_pending publisher env db :
  NoDup (map _id (published (tick publisher env db).2)) /\
  forall e, e ∈ published (tick publisher env db).2 ->
    outbox db !! _id e = Some (snd e) /\ ev_status (fields e) = PENDING.
Proof.
  destruct (tick_read_cases env db) as [[err Hr]|[batch Hfind]].
  { rewrite (tick_read_fails _ _ _ _ Hr). cbn. split; [constructor|].
    intros e He. by apply elem_of_nil in He. }
  pose proof (tick_spec publisher env db batch Hfind) as H.
  apply OutboxEvent_find_sort_limit_Fulfilled in Hfind as (_ & Hnd & Hin & _ & _).
  destruct (tick publisher env db) as [db' effs]. cbn [snd].
  destruct H as (settled & rest & -> & _ & Hrest & _).
  assert (Hsub : published effs `sublist_of` settled ++ rest).
  { destruct rest as [|e rest].
    - rewrite Hrest, app_nil_r. done.
    - destruct Hrest as [_ ->]. apply sublist_app; [done|].
      apply sublist_skip, sublist_nil_l. }
  split.
  - eapply sublist_NoDup; [exact Hnd|]. by apply fmap_sublist.
  - intros e He. apply Hin. by eapply elem_of_sublist.
Qed.

(** When the status writes of the [catch] block succeed, every event a tick
    hands to the publisher is settled by that tick. *)
Lemma tick_published_settled publisher env db e :
  (forall id, failed_write_rejects env id = None) ->
  e ∈ published (tick publisher env db).2 ->
  exists d', outbox (tick publisher env db).1 !! _id e = Some d' /\
             ev_status (st_fields d') <> PENDING.
Proof.
  intros Hok.
  destruct (tick_read_cases env db) as [[err Hr]|[batch Hfind]].
  { rewrite (tick_read_fails _ _ _ _ Hr). cbn. intros He. by apply elem_of_nil in He. }
  destruct (tick_all_settled publisher env db batch Hfind) as [-> Hset].
  { intros e' _ err Hv. apply verdict_Abort in Hv. rewrite Hok in Hv. done. }
  intros He. rewrite (Hset e He). eexists. split; [done|].
  pose proof (verdict_Abort publisher env e) as Hab.
  destruct (verdict publisher env e) as [|m|err]; cbn; try discriminate.
  specialize (Hab err eq_refl). rewrite Hok in Hab. done.
Qed.

(** ** Invariants of the store along every run *)

(** A property kept by every step is kept by every run. *)
Lemma steps_invariant (P : Store -> Prop) :
  (forall s db, P db -> P (step s db)) ->
  forall l db, P db -> P (steps l db).
Proof.
  intros Hstep l. unfold steps.
  induction l as [|s l IH]; intros db Hdb; [done|].
  cbn [fold_left]. by apply IH, Hstep.
Qed.

(** The [reduce] over [itemsWithTotals] is the sum over the summary. *)
Lemma compute_grandTotal_summary iwt :
  compute_grandTotal iwt =
    round2 (fold_left (fun s l => (s + is_lineTotal l)%float) (summary_of iwt) 0%float).
Proof.
  unfold compute_grandTotal, round2, summary_of. do 3 f_equal.
  generalize 0%float. induction iwt as [|i iwt IH]; intros acc; [done|].
  cbn. apply IH.
Qed.

(** X1. Along every run of requests and ticks, every OrderItem points to a
    stored Order. *)
Theorem items_belong_to_orders_kept l db :
  items_belong_to_orders db -> items_belong_to_orders (steps l db).
Proof.
  apply steps_invariant. clear. intros [env req|publisher env] db Hinv; cbn [step].
  - destruct (post_orders_result env req db)
      as [[_ ->]|(_ & -> & Ho & _ & _ & _ & _)]; [done|].
    intros k i. cbn [orders orderItems].
    intros [Hnew|[_ Hold]]%lookup_union_Some_raw.
    + apply elem_of_list_to_map_2 in Hnew.
      pose proof (proj1 (written_items_fields env req (k, i) Hnew)) as Hoid.
      unfold fields in Hoid. cbn [snd] in Hoid.
      rewrite Hoid, lookup_insert_eq. by eexists.
    + apply lookup_insert_is_Some'. right. by apply (Hinv k).
  - destruct (tick_keeps_collections publisher env db) as [Ho Hi].
    intros k i. rewrite Ho, Hi. apply Hinv.
Qed.

(** Witness of X1: the empty store and scenario A followed by a tick. *)
Lemma items_belong_to_orders_kept_witness :
  items_belong_to_orders empty_store /\
  items_belong_to_orders
    (steps [Request Scenario.calm Scenario.reqA; RelayTick publish Scenario.steady]
           empty_store).
Proof.
  assert (H0 : items_belong_to_orders empty_store).
  { intros k i Hk. cbn in Hk. by rewrite lookup_empty in Hk. }
  split; [exact H0|]. by apply items_belong_to_orders_kept.
Defined.

(** The record a tick leaves under an id keeps the type, the aggregate id
    and the payload of the record it found there. *)
Lemma tick_lookup_Some publisher env db id d' :
  outbox (tick publisher env db).1 !! id = Some d' ->
  exists d, outbox db !! id = Some d /\ same_event d d'.
Proof.
  destruct (tick_lookup publisher env db id)
    as [->|(d & Hd & _ & [->|[m ->]])].
  - intros Hd. exists d'. split; [done|apply same_event_refl].
  - intros [= <-]. exists d. split; [done|]. by repeat split.
  - intros [= <-]. exists d. split; [done|]. by repeat split.
Qed.

(** A tick neither adds nor removes an event. *)
Lemma tick_keeps_dom publisher env db :
  dom (outbox (tick publisher env db).1) = dom (outbox db).
Proof.
  apply set_eq. intros id. rewrite !elem_of_dom.
  destruct (tick_lookup publisher env db id)
    as [->|(d & Hd & _ & [H|[m H]])]; [done| |]; rewrite H, Hd; by split; eexists.
Qed.

(** X2. Along every run of requests and ticks, the outbox matches the
    orders: as many events as Orders, an ORDER_CREATED event for every
    Order, and every event is that of a stored Order, with a payload that
    agrees with the Order. *)
Theorem outbox_matches_orders_kept l db :
  outbox_matches_orders db -> outbox_matches_orders (steps l db).
Proof.
  apply steps_invariant. clear.
  intros [env req|publisher env] db (Hsize & Hoe & Heo); cbn [step].
  - destruct (post_orders_result env req db)
      as [[_ ->]|(_ & -> & Ho & He & _ & _ & _)]; [done|].
    unfold outbox_matches_orders. cbn [orders outbox]. split; [|split].
    + rewrite !map_size_insert_None by done. by rewrite Hsize.
    + intros oid o [[<- <-]|[Hne Hold]]%lookup_insert_Some.
      * exists (_id (written_event env req)), (snd (written_event env req)).
        split; [apply lookup_insert_eq|done].
      * destruct (Hoe oid o Hold) as (eid & e & Heid & Hagg).
        exists eid, e. split; [|done].
        rewrite lookup_insert_ne; [done|]. congruence.
    + intros eid e [[<- <-]|[Hne Hold]]%lookup_insert_Some.
      * split; [done|].
        exists (_id (written_order env req)), (snd (written_order env req)),
               (map ItemWithTotal_to_json (itemsWithTotals (co_items req))).
        split; [apply lookup_insert_eq|]. split; [done|]. split; [|done].
        cbn. unfold summary_of. by rewrite !length_map.
      * destruct (Heo eid e Hold) as (Hty & oid & o & items & Hoid & Hrest).
        split; [done|]. exists oid, o, items. split; [|done].
        rewrite lookup_insert_ne; [done|]. congruence.
  - destruct (tick_keeps_collections publisher env db) as [Hord _].
    unfold outbox_matches_orders. rewrite Hord. split; [|split].
    + rewrite <- Hsize, <- !size_dom. by rewrite tick_keeps_dom.
    + intros oid o Hoid. destruct (Hoe oid o Hoid) as (eid & e & Heid & Hagg).
      destruct (tick_evolves publisher env db eid e Heid)
        as (e' & He' & (_ & _ & Hagg' & _) & _).
      exists eid, e'. split; [done|]. by rewrite Hagg'.
    + intros eid e' He'.
      destruct (tick_lookup_Some publisher env db eid e' He')
        as (e & He & (_ & Hty & Hagg & Hpay)).
      destruct (Heo eid e He) as (Hty0 & oid & o & items & Hoid & Hagg0 & Hlen & Hpay0).
      split; [by rewrite Hty|]. exists oid, o, items.
      split; [done|]. split; [by rewrite Hagg|]. split; [done|]. by rewrite Hpay.
Qed.

(** Witness of X2: the empty store and scenario A followed by a tick. *)
Lemma outbox_matches_orders_kept_witness :
  outbox_matches_orders empty_store /\
  outbox_matches_orders
    (steps [Request Scenario.calm Scenario.reqA; RelayTick publish Scenario.steady]
           empty_store).
Proof.
  assert (H0 : outbox_matches_orders empty_store).
  { split; [done|]. split; intros k x Hk; cbn in Hk; by rewrite lookup_empty in Hk. }
  split; [exact H0|]. by apply outbox_matches_orders_kept.
Defined.

(** X3. Along every run of requests and ticks, every stored Order is
    CONFIRMED, passes its schema and has as grand total the rounded sum of
    the line totals of its summary, and every stored OrderItem passes its
    schema and has as line total the rounded product of unit price and
    quantity. *)
Theorem totals_hold_kept l db :
  totals_hold db -> totals_hold (steps l db).
Proof.
  apply steps_invariant. clear.
  intros [env req|publisher env] db [Hord Hitem]; cbn [step].
  - destruct (post_orders_result env req db)
      as [[_ ->]|(_ & -> & _ & _ & _ & _ & Vo & Vi & _)]; [done|].
    unfold totals_hold. cbn [orders orderItems]. split.
    + intros oid o [[<- <-]|[_ Hold]]%lookup_insert_Some; [|by apply (Hord oid)].
      split; [done|]. split; [exact Vo|].
      apply compute_grandTotal_summary.
    + intros k i [Hnew|[_ Hold]]%lookup_union_Some_raw; [|by apply (Hitem k)].
      apply elem_of_list_to_map_2 in Hnew. split.
      * rewrite forallb_forall in Vi. apply Vi.
        apply in_map_iff. exists (k, i). split; [done|]. by apply list_elem_of_In.
      * apply (written_items_fields env req (k, i) Hnew).
  - destruct (tick_keeps_collections publisher env db) as [Ho Hi].
    unfold totals_hold. by rewrite Ho, Hi.
Qed.

(** Witness of X3: the empty store and scenario A followed by a tick. *)
Lemma totals_hold_kept_witness :
  totals_hold empty_store /\
  totals_hold
    (steps [Request Scenario.calm Scenario.reqA; RelayTick publish Scenario.steady]
           empty_store).
Proof.
  assert (H0 : totals_hold empty_store).
  { split; intros k x Hk; cbn in Hk; by rewrite lookup_empty in Hk. }
  split; [exact H0|]. by apply totals_hold_kept.
Defined.

(** X4. Along every run of requests and ticks, an event has a last error
    exactly when it is FAILED: a new event has none, the SENT write clears
    it, the FAILED write sets it. *)
Theorem lastError_iff_FAILED_kept l db :
  lastError_iff_FAILED db -> lastError_iff_FAILED (steps l db).
Proof.
  apply steps_invariant. clear.
  intros [env req|publisher env] db Hinv; cbn [step].
  - destruct (post_orders_result env req db)
      as [[_ ->]|(_ & -> & _ & _ & _)]; [done|].
    unfold lastError_iff_FAILED. cbn [outbox].
    intros id e [[<- <-]|[_ Hold]]%lookup_insert_Some; [|by apply (Hinv id)].
    cbn. split; [discriminate|]. by intros [? ?].
  - intros id e'.
    destruct (tick_lookup publisher env db id)
      as [->|(d & Hd & _ & [->|[m ->]])].
    + apply Hinv.
    + intros [= <-]. cbn. split; [discriminate|]. by intros [? ?].
    + intros [= <-]. cbn. split; [by eexists|done].
Qed.

(** Witness of X4: the backlog over two ticks, the first with a publisher
    that throws for event 2. *)
Lemma lastError_iff_FAILED_kept_witness :
  lastError_iff_FAILED Scenario.backlog /\
  lastError_iff_FAILED
    (steps [RelayTick Scenario.throwing Scenario.steady;
            RelayTick publish Scenario.steady] Scenario.backlog).
Proof.
  assert (H0 : lastError_iff_FAILED Scenario.backlog).
  { intros id e He. apply elem_of_map_to_list in He.
    revert He. vm_compute map_to_list.
    intros He.
    repeat (apply elem_of_cons in He as [[= -> ->]|He];
            [cbn; split; [discriminate|by intros [? ?]]|]).
    by apply elem_of_nil in He. }
  split; [exact H0|]. by apply lastError_iff_FAILED_kept.
Defined.

(** ** What is handed to the publisher along a run *)

(** The runs of this part are the runs [steps], in which every callback of
    the worker ends before the next one starts; the last property of the
    part is about callbacks that overlap. *)

(** One step keeps a stored event stored, and a settled one as it is. *)
Lemma step_keeps_settled s db id d :
  outbox db !! id = Some d ->
  exists d1, outbox (step s db) !! id = Some d1 /\
             (ev_status (st_fields d) <> PENDING -> d1 = d).
Proof.
  intros Hd.
  destruct (steps_status_one_way [s] db id d Hd) as (d1 & Hd1 & _ & Hterm).
  by exists d1.
Qed.

(** An event handed to the publisher somewhere in a run is, if it is stored
    when the run starts, PENDING then. *)
Lemma steps_published_pending l db e d :
  e ∈ steps_published l db ->
  outbox db !! _id e = Some d ->
  ev_status (st_fields d) = PENDING.
Proof.
  revert db d. induction l as [|s l IH]; intros db d; cbn [steps_published].
  { intros He. by apply elem_of_nil in He. }
  intros [Hnow|Hlater]%elem_of_app Hd.
  - destruct s as [env req|publisher env]; cbn [step_effects] in Hnow.
    + rewrite post_orders_publishes_nothing in Hnow. by apply elem_of_nil in Hnow.
    + destruct (tick_published_pending publisher env db) as [_ Hp].
      destruct (Hp e Hnow) as [Hst Hpen]. unfold fields in Hpen. congruence.
  - destruct (step_keeps_settled s db (_id e) d Hd) as (d1 & Hd1 & Hterm).
    destruct (decide (ev_status (st_fields d) = PENDING)) as [|Hnp]; [done|].
    rewrite <- (Hterm Hnp). by apply (IH (step s db)).
Qed.

(** X5. In a run of requests and ticks in which no two callbacks of the
    worker overlap, an event that is SENT or FAILED is not handed to the
    publisher again in any later tick, whatever the publishers and the store
    do: a callback reads PENDING events only, and nothing moves an event
    back to PENDING. *)
Theorem settled_never_published l db id d :
  outbox db !! id = Some d ->
  ev_status (st_fields d) <> PENDING ->
  id ∉ map _id (steps_published l db).
Proof.
  intros Hd Hnp (e & -> & He)%list_elem_of_fmap.
  by apply Hnp, (steps_published_pending l db e d).
Qed.

(** Witness of X5: event 3 of the backlog was sent before; event 2 becomes
    FAILED in the first tick and is not retried in the second. *)
Lemma settled_never_published_witness :
  let l := [RelayTick Scenario.always_throwing Scenario.steady;
            RelayTick publish Scenario.steady] in
  outbox Scenario.backlog !! 3%N
    = Some (set_status_lastError (Scenario.pending_event 5 "a3") SENT None) /\
  (3%N ∉ map _id (steps_published l Scenario.backlog)) /\
  map _id (steps_published l Scenario.backlog) = [2%N; 1%N].
Proof.
  intros l. split; [vm_compute; reflexivity|]. split.
  - apply (settled_never_published l Scenario.backlog 3%N
             (set_status_lastError (Scenario.pending_event 5 "a3") SENT None)).
    + vm_compute; reflexivity.
    + discriminate.
  - vm_compute; reflexivity.
Defined.

(** X6. In a run in which no two callbacks of the worker overlap and no
    status write of a [catch] block is rejected, no event is handed to the
    publisher twice: every event a tick hands over is SENT or FAILED when
    the tick ends, before the next callback reads its batch. *)
Theorem published_at_most_once l db :
  (forall env, env ∈ tick_envs l -> forall id, failed_write_rejects env id = None) ->
  NoDup (map _id (steps_published l db)).
Proof.
  revert db. induction l as [|s l IH]; intros db Hok; cbn [steps_published].
  { constructor. }
  rewrite map_app. apply NoDup_app.
  destruct s as [env req|publisher env]; cbn [step_effects].
  - rewrite post_orders_publishes_nothing. split; [constructor|].
    split; [intros x Hx; by apply elem_of_nil in Hx|]. by apply IH.
  - assert (Henv : forall id, failed_write_rejects env id = None).
    { apply Hok. cbn. left. }
    destruct (tick_published_pending publisher env db) as [Hnd _].
    split; [exact Hnd|]. split.
    + intros x (e & -> & He)%list_elem_of_fmap.
      destruct (tick_published_settled publisher env db e Henv He) as (d' & Hd' & Hnp).
      intros (e2 & Heq & He2)%list_elem_of_fmap.
      apply Hnp. apply (steps_published_pending l _ e2 d' He2).
      cbn [step]. by rewrite <- Heq.
    + apply IH. intros env' Henv'. apply Hok. cbn. by right.
Qed.

(** Witness of X6: two ticks on the backlog, the first with a publisher that
    throws for event 2. *)
Lemma published_at_most_once_witness :
  let l := [RelayTick Scenario.throwing Scenario.steady;
            RelayTick publish Scenario.steady] in
  (forall env, env ∈ tick_envs l -> forall id, failed_write_rejects env id = None) /\
  NoDup (map _id (steps_published l Scenario.backlog)) /\
  map _id (steps_published l Scenario.backlog) = [2%N; 1%N].
Proof.
  intros l.
  assert (Hok : forall env, env ∈ tick_envs l ->
                  forall id, failed_write_rejects env id = None).
  { intros env Henv id. cbn in Henv.
    repeat (apply elem_of_cons in Henv as [->|Henv]; [reflexivity|]).
    by apply elem_of_nil in Henv. }
  split; [exact Hok|]. split; [by apply published_at_most_once|].
  vm_compute; reflexivity.
Defined.

(** X16. The filter on PENDING is in the batch read and in the SENT write,
    not before [publish].  A callback that goes on with a batch whose events
    another callback has settled in the meantime hands every event of its
    batch to the publisher again; when the publisher and the SENT writes
    succeed it writes nothing, and nothing is logged as failed. *)
Theorem resume_settled_batch publisher env batch db :
  (forall e, e ∈ batch ->
     exists d, outbox db !! _id e = Some d /\ ev_status (st_fields d) <> PENDING) ->
  (forall e, e ∈ batch -> exists b, publisher e = Fulfilled b) ->
  (forall e, e ∈ batch -> sent_write_rejects env (_id e) = None) ->
  (resume publisher env batch db).1 = db /\
  published (resume publisher env batch db).2 = batch /\
  (forall ctx msg, Log ERROR ctx msg ∉ (resume publisher env batch db).2).
Proof.
  intros Hst Hpub Hok. unfold resume.
  assert (Hloop : exists effs,
            process_events publisher env batch db = (None, db, effs) /\
            published effs = batch /\
            forall ctx msg, Log ERROR ctx msg ∉ effs).
  { clear -Hst Hpub Hok.
    induction batch as [|evt batch IH].
    { exists []. split; [done|]. split; [done|]. intros ctx msg H.
      by apply elem_of_nil in H. }
    destruct IH as (effs & Hloop & Heffs & Hlog).
    { intros e He. apply Hst. by right. }
    { intros e He. apply Hpub. by right. }
    { intros e He. apply Hok. by right. }
    destruct (Hst evt) as (d & Hd & Hnp); [left|].
    destruct (Hpub evt) as [b Hb]; [left|].
    cbn [process_events]. unfold try_send, OutboxEvent_updateOne.
    rewrite Hb, (Hok evt) by left. rewrite Hd.
    rewrite (bool_decide_eq_false_2 _ Hnp). rewrite Hloop.
    eexists. split; [reflexivity|]. split.
    - change (published (Publish evt :: Log INFO
                (CtxEvent (String_of_ObjectId (_id evt)) (ev_type (fields evt)))
                "outbox sent" :: effs))
        with (evt :: published effs).
      by rewrite Heffs.
    - intros ctx msg [H|[H|H]%elem_of_cons]%elem_of_cons; try discriminate.
      by apply (Hlog ctx msg). }
  destruct Hloop as (effs & -> & Heffs & Hlog). by cbn [fst snd].
Qed.

(** Witness of X16: the batch of the backlog, after another callback made
    its two events SENT. *)
Lemma resume_settled_batch_witness :
  let batch := [(2%N, Scenario.pending_event 10 "a2");
                (1%N, Scenario.pending_event 20 "a1")] in
  let sent := (tick publish Scenario.steady Scenario.backlog).1 in
  OutboxEvent_find_sort_limit (find_pending_rejects Scenario.steady) PENDING BATCH
      Scenario.backlog = Fulfilled batch /\
  status_of sent 2%N = Some SENT /\ status_of sent 1%N = Some SENT /\
  (resume publish Scenario.steady batch sent).1 = sent /\
  published (resume publish Scenario.steady batch sent).2 = batch.
Proof.
  intros batch sent.
  split; [vm_compute; reflexivity|]. split; [vm_compute; reflexivity|].
  split; [vm_compute; reflexivity|].
  destruct (resume_settled_batch publish Scenario.steady batch sent)
    as (Hdb & Hpub & _).
  - intros e He. subst batch.
    repeat (apply elem_of_cons in He as [->|He];
            [eexists; split; [vm_compute; reflexivity|discriminate]|]).
    by apply elem_of_nil in He.
  - intros e _. by exists true.
  - intros e _. reflexivity.
  - by split.
Defined.

(** ** Ticks at the edges *)

(** X7. A tick that reads an outbox without PENDING events does nothing: it
    calls no publisher, writes nothing and logs nothing. *)
Theorem tick_nothing_pending publisher env db :
  find_pending_rejects env = None ->
  (forall id, status_of db id <> Some PENDING) ->
  tick publisher env db = (db, []).
Proof.
  intros Hfind Hnone. unfold tick.
  destruct (OutboxEvent_find_sort_limit (find_pending_rejects env) PENDING BATCH db)
    as [batch|err] eqn:Hb.
  - apply OutboxEvent_find_sort_limit_Fulfilled in Hb as (_ & _ & Hin & _ & _).
    destruct batch as [|e batch]; [reflexivity|].
    destruct (Hin e) as [Hst Hp]; [left|].
    exfalso. apply (Hnone (_id e)). unfold status_of. rewrite Hst. cbn.
    by rewrite <- Hp.
  - unfold OutboxEvent_find_sort_limit in Hb. by rewrite Hfind in Hb.
Qed.

(** Witness of X7: the backlog after a tick that settled everything. *)
Lemma tick_nothing_pending_witness :
  let db := (tick publish Scenario.steady Scenario.backlog).1 in
  find_pending_rejects Scenario.steady = None /\
  (forall id, status_of db id <> Some PENDING) /\
  tick Scenario.always_throwing Scenario.steady db = (db, []).
Proof.
  intros db.
  assert (Hnone : forall id, status_of db id <> Some PENDING).
  { intros id. unfold status_of. destruct (outbox db !! id) as [d|] eqn:Hd; [|done].
    apply elem_of_map_to_list in Hd. revert Hd. vm_compute map_to_list. intros Hd.
    repeat (apply elem_of_cons in Hd as [[= -> ->]|Hd]; [discriminate|]).
    by apply elem_of_nil in Hd. }
  split; [reflexivity|]. split; [exact Hnone|].
  by apply tick_nothing_pending.
Defined.

(** X8. A tick whose batch is not full and whose status writes in the
    [catch] block succeed drains the outbox: every PENDING event is handed
    to the publisher, and when the tick ends no event is PENDING. *)
Theorem tick_drains_outbox publisher env db batch :
  OutboxEvent_find_sort_limit (find_pending_rejects env) PENDING BATCH db
    = Fulfilled batch ->
  length batch < BATCH ->
  (forall e, e ∈ batch -> failed_write_rejects env (_id e) = None) ->
  (forall id d, outbox db !! id = Some d -> ev_status (st_fields d) = PENDING ->
     (id, d) ∈ published (tick publisher env db).2) /\
  (forall id, status_of (tick publisher env db).1 id <> Some PENDING).
Proof.
  intros Hfind Hlen Hok.
  destruct (tick_all_settled publisher env db batch Hfind) as [Hpub Hset].
  { intros e He err Hv. apply verdict_Abort in Hv. rewrite Hok in Hv; done. }
  apply OutboxEvent_find_sort_limit_Fulfilled in Hfind as (_ & _ & Hin & _ & Hleft).
  split.
  { intros id d Hd Hp. rewrite Hpub.
    destruct (decide (id ∈ map _id batch)) as [(e & Heq & He)%list_elem_of_fmap|Hnot].
    - destruct (Hin e He) as [Hst _]. rewrite <- Heq in Hst.
      assert (e = (id, d)) as <-; [|done].
      destruct e as [k v]. cbn in Heq, Hst. subst k. congruence.
    - destruct (Hleft (id, d)) as [Hfull _]; [done|done| |lia].
      intros Hmem. apply Hnot. by apply (list_elem_of_fmap_2 _id) in Hmem. }
  intros id.
  assert (Hsettled : forall e, e ∈ batch ->
            status_of (tick publisher env db).1 (_id e) <> Some PENDING).
  { intros e He. unfold status_of. rewrite (Hset e He).
    pose proof (verdict_Abort publisher env e) as Hab.
    destruct (verdict publisher env e) as [|m|err]; cbn; try discriminate.
    specialize (Hab err eq_refl). rewrite (Hok e He) in Hab. done. }
  destruct (decide (id ∈ map _id batch)) as [(e & -> & He)%list_elem_of_fmap|Hnot].
  { by apply Hsettled. }
  unfold status_of.
  destruct (tick_lookup publisher env db id)
    as [->|(d & Hd & _ & [->|[m ->]])]; [|discriminate..].
  destruct (outbox db !! id) as [d|] eqn:Hd; [|done].
  cbn. intros [= Hp].
  destruct (Hleft (id, d)) as [Hfull _]; [done|done| |lia].
  intros Hmem. apply Hnot. by apply (list_elem_of_fmap_2 _id) in Hmem.
Qed.

(** Witness of X8: the backlog with a publisher that throws for event 2. *)
Lemma tick_drains_outbox_witness :
  OutboxEvent_find_sort_limit (find_pending_rejects Scenario.steady) PENDING BATCH
      Scenario.backlog
    = Fulfilled [(2%N, Scenario.pending_event 10 "a2");
                 (1%N, Scenario.pending_event 20 "a1")] /\
  2 < BATCH /\
  forall id,
    status_of (tick Scenario.throwing Scenario.steady Scenario.backlog).1 id
      <> Some PENDING.
Proof.
  split; [vm_compute; reflexivity|]. split; [unfold BATCH; lia|].
  apply (tick_drains_outbox Scenario.throwing Scenario.steady Scenario.backlog
           [(2%N, Scenario.pending_event 10 "a2"); (1%N, Scenario.pending_event 20 "a1")]).
  - vm_compute; reflexivity.
  - cbn. unfold BATCH. lia.
  - intros e _. reflexivity.
Defined.

(** X9. The [catch] block also covers the SENT write: an event that the
    publisher accepted, but whose SENT write is rejected, becomes FAILED with
    the store error as its last error (when the FAILED writes of the batch
    succeed), although it was handed to the publisher. *)
Theorem tick_delivered_marked_FAILED publisher env db batch e b err :
  OutboxEvent_find_sort_limit (find_pending_rejects env) PENDING BATCH db
    = Fulfilled batch ->
  (forall x, x ∈ batch -> failed_write_rejects env (_id x) = None) ->
  e ∈ batch ->
  publisher e = Fulfilled b ->
  sent_write_rejects env (_id e) = Some err ->
  e ∈ published (tick publisher env db).2 /\
  outbox (tick publisher env db).1 !! _id e
    = Some (set_updatedAt (write_time env (_id e) FAILED)
              (set_status_lastError (snd e) FAILED (Some (message_or_String err)))).
Proof.
  intros Hfind Hok He Hp Hs.
  destruct (tick_all_settled publisher env db batch Hfind) as [Hpub Hset].
  { intros x Hx err' Hv. apply verdict_Abort in Hv. rewrite Hok in Hv; done. }
  split; [by rewrite Hpub|].
  rewrite (Hset e He). unfold verdict. by rewrite Hp, Hs, (Hok e He).
Qed.

(** Witness of X9: the SENT write of event 2 of the backlog is rejected. *)
Lemma tick_delivered_marked_FAILED_witness :
  let e := (2%N, Scenario.pending_event 10 "a2") in
  publish e = Fulfilled true /\
  sent_write_rejects Scenario.sent_write_fails (_id e)
    = Some (ThrownError "MongoNetworkError" "timed out") /\
  e ∈ published (tick publish Scenario.sent_write_fails Scenario.backlog).2 /\
  outbox (tick publish Scenario.sent_write_fails Scenario.backlog).1 !! _id e
    = Some (set_updatedAt 1700000061000
              (set_status_lastError (snd e) FAILED (Some "timed out"))).
Proof.
  intros e. split; [reflexivity|]. split; [reflexivity|].
  apply (tick_delivered_marked_FAILED publish Scenario.sent_write_fails
           Scenario.backlog [e; (1%N, Scenario.pending_event 20 "a1")] e true
           (ThrownError "MongoNetworkError" "timed out")).
  - vm_compute; reflexivity.
  - intros x _. reflexivity.
  - left.
  - reflexivity.
  - reflexivity.
Defined.

(** The first element of a list that fails a property is where it is. *)
Lemma first_failure_unique {A : Type} (P : A -> Prop) (l1 l2 l1' r : list A) (x : A) :
  l1 ++ x :: l2 = l1' ++ r ->
  (forall y, y ∈ l1 -> P y) -> ~ P x ->
  (forall y, y ∈ l1' -> P y) ->
  match r with [] => True | z :: _ => ~ P z end ->
  l1' = l1 /\ r = x :: l2.
Proof.
  revert l1'. induction l1 as [|a l1 IH]; intros [|y l1'] Heq H1 Hx H1' Hr; cbn in Heq.
  - by subst r.
  - injection Heq as <- _. exfalso. apply Hx, H1'. left.
  - subst r. exfalso. apply Hr, H1. left.
  - injection Heq as <- Heq.
    destruct (IH l1' Heq) as [-> ->]; [| | |done|done].
    + intros z Hz. apply H1. by right.
    + done.
    + intros z Hz. apply H1'. by right.
Qed.

(** X10. When the try block of an event fails (the publisher throws or the
    SENT write is rejected) and the FAILED write of the catch block is
    rejected too, the tick stops there: the events before it in the batch
    were handed to the publisher and settled, the event itself was handed
    over and stays as it was, the events after it are neither handed over
    nor written, and the tick ends by logging "outbox tick failed" with the
    error of the FAILED write. *)
Theorem tick_stops_at_failed_write publisher env db before e after err :
  OutboxEvent_find_sort_limit (find_pending_rejects env) PENDING BATCH db
    = Fulfilled (before ++ e :: after) ->
  (forall x, x ∈ before -> failed_write_rejects env (_id x) = None) ->
  (forall b, publisher e = Fulfilled b -> sent_write_rejects env (_id e) <> None) ->
  failed_write_rejects env (_id e) = Some err ->
  published (tick publisher env db).2 = before ++ [e] /\
  last (tick publisher env db).2 = Some (Log ERROR (CtxErr err) "outbox tick failed") /\
  (forall x, x ∈ before ->
     exists d', outbox (tick publisher env db).1 !! _id x = Some d' /\
                ev_status (st_fields d') <> PENDING) /\
  (forall x, x ∈ e :: after ->
     outbox (tick publisher env db).1 !! _id x = Some (snd x)).
Proof.
  intros Hfind Hbefore Htry Hfail.
  assert (He : verdict publisher env e = Abort err).
  { unfold verdict. rewrite Hfail. destruct (publisher e) as [b|]; [|done].
    specialize (Htry b eq_refl). by destruct (sent_write_rejects env (_id e)). }
  unfold tick. rewrite Hfind.
  apply OutboxEvent_find_sort_limit_Fulfilled in Hfind as (_ & Hnd & Hin & _ & _).
  pose proof (process_events_spec publisher env _ db Hnd Hin) as Hloop.
  destruct (process_events publisher env (before ++ e :: after) db)
    as [[r db'] effs].
  destruct Hloop as (settled & rest & Heq & Hok & Hrest & _ & _ & Hset & Hother).
  destruct (first_failure_unique
              (fun y => forall err', verdict publisher env y <> Abort err')
              before after settled rest e Heq) as [-> ->].
  { intros y Hy err' Hv. apply verdict_Abort in Hv. rewrite Hbefore in Hv; done. }
  { intros H. by apply (H err). }
  { done. }
  { destruct rest as [|z rest]; [done|]. destruct Hrest as (Hv & Hr & _).
    intros H. destruct r as [err'|]; [|done]. by apply (H err'). }
  destruct Hrest as (Hv & Hr & Hpub).
  destruct r as [err'|]; [|done].
  assert (err' = err) as -> by congruence.
  cbn [fst snd]. split.
  { unfold published. rewrite omap_app. cbn. rewrite app_nil_r. exact Hpub. }
  split; [apply last_snoc|]. split.
  - intros x Hx. rewrite (Hset x Hx). eexists. split; [done|].
    specialize (Hok x Hx).
    destruct (verdict publisher env x) as [|m|err']; cbn; try discriminate.
    by destruct (Hok err').
  - intros x Hx. rewrite Hother.
    + apply Hin. apply elem_of_app. by right.
    + intros (y & Hxy & Hy)%list_elem_of_fmap.
      rewrite map_app in Hnd. apply NoDup_app in Hnd as (_ & Hdisj & _).
      apply (Hdisj (_id y)); [by apply list_elem_of_fmap_2|].
      rewrite <- Hxy. by apply list_elem_of_fmap_2.
Qed.

(** Witness of X10: the publisher throws for event 2, the older one of the
    backlog, and both status writes of event 2 are rejected. *)
Lemma tick_stops_at_failed_write_witness :
  let e := (2%N, Scenario.pending_event 10 "a2") in
  let after := [(1%N, Scenario.pending_event 20 "a1")] in
  let err := ThrownError "MongoNetworkError" "timed out" in
  OutboxEvent_find_sort_limit (find_pending_rejects Scenario.status_writes_fail)
      PENDING BATCH Scenario.backlog
    = Fulfilled ([] ++ e :: after) /\
  failed_write_rejects Scenario.status_writes_fail (_id e) = Some err /\
  published (tick Scenario.throwing Scenario.status_writes_fail Scenario.backlog).2
    = [] ++ [e] /\
  last (tick Scenario.throwing Scenario.status_writes_fail Scenario.backlog).2
    = Some (Log ERROR (CtxErr err) "outbox tick failed") /\
  (forall x, x ∈ e :: after ->
     outbox (tick Scenario.throwing Scenario.status_writes_fail Scenario.backlog).1
       !! _id x = Some (snd x)).
Proof.
  intros e after err.
  split; [vm_compute; reflexivity|]. split; [reflexivity|].
  destruct (tick_stops_at_failed_write Scenario.throwing Scenario.status_writes_fail
              Scenario.backlog [] e after err) as (Hpub & Hlast & _ & Hkept).
  - vm_compute; reflexivity.
  - intros x Hx. by apply elem_of_nil in Hx.
  - intros b Hb. discriminate Hb.
  - reflexivity.
  - by repeat split.
Defined.

(** ** A created order can be read back *)

(** After a request went through on a store without dangling items, the
    items that point to the new order are the ones the request wrote. *)
Lemma items_of_new_order env req db :
  items_belong_to_orders db ->
  orders db !! _id (written_order env req) = None ->
  NoDup (map _id (written_items env req)) ->
  filter (fun d : Doc OrderItem => orderId (fields d) = _id (written_order env req))
         (map_to_list (list_to_map (written_items env req) ∪ orderItems db))
    ≡ₚ written_items env req.
Proof.
  intros Hinv Ho Hnd. apply NoDup_Permutation.
  - apply NoDup_filter, NoDup_map_to_list.
  - by apply (NoDup_fmap_1 _id).
  - intros [k i]. rewrite list_elem_of_filter. split.
    + intros [Hoid [Hnew|[_ Hold]]%elem_of_map_to_list%lookup_union_Some_raw].
      * by apply elem_of_list_to_map_2.
      * destruct (Hinv k i Hold) as [o Hsome].
        unfold fields in Hoid. cbn [snd] in Hoid. congruence.
    + intros Hin. split; [by apply written_items_fields|].
      apply elem_of_map_to_list, lookup_union_Some_raw. left.
      by apply elem_of_list_to_map_1.
Qed.

(** X11. The id that [POST /orders] returns reads the order back: after a
    request answered 201 (with a 12-byte id, on a store where every item
    points to a stored order), [GET /orders/:id] with the returned id, when
    its two queries are not rejected, answers 200 with the Order of the
    request (same customer, currency and grand total as in the 201 body) and
    exactly the items of the request, each with its rounded line total. *)
Theorem post_then_get env req db genv :
  created (post_orders env req db).1.1 = true ->
  (new_ObjectId env OrderCreate 0 < 2 ^ 96)%N ->
  items_belong_to_orders db ->
  findById_rejects genv = None ->
  find_rejects genv = None ->
  exists (s : string) (oid : ObjectId) (o : Stored Order) (items : list (Doc OrderItem)),
    (post_orders env req db).1.1 =
      Responded (mkResponse 201
        (JObj [("orderId", JStr s);
               ("grandTotal", json_number (grandTotal (st_fields o)));
               ("currency", JStr (currency (st_fields o)));
               ("status", JStr "CONFIRMED")])) /\
    get_order genv s (post_orders env req db).1.2 =
      Responded (mkResponse 200
        (JObj (Order_fields_json (oid, o) ++
               [("items", JArr (map OrderItem_to_json items))]))) /\
    customerId (st_fields o) = co_customerId req /\
    currency (st_fields o) = co_currency req /\
    map (fun d : Doc OrderItem =>
           (oi_sku (fields d), oi_name (fields d), oi_unitPrice (fields d),
            oi_quantity (fields d), oi_lineTotal (fields d))) items
      ≡ₚ map (fun i => (sku i, name i, unitPrice i, quantity i,
                        round2 (unitPrice i * quantity i))) (co_items req).
Proof.
  intros Hc Hid Hinv Hf Hf'.
  destruct (post_orders_created _ _ _ Hc) as (effs & res & st & T & E).
  rewrite E. cbn [fst snd].
  apply create_order_transaction_Fulfilled in T
    as (_ & _ & _ & Ho & _ & (c & Hc' & ->) & _ & ->).
  apply insert_docs_Fulfilled in Hc' as (-> & Hnd & _).
  exists (String_of_ObjectId (_id (written_order env req))),
         (_id (written_order env req)), (snd (written_order env req)).
  eexists. split; [reflexivity|]. split.
  { unfold get_order, Order_findById.
    rewrite castObjectId_String_of_ObjectId by exact Hid.
    rewrite Hf. cbn [orders]. rewrite lookup_insert_eq. cbn [fmap option_fmap option_map].
    unfold OrderItem_find. rewrite Hf'. cbn [orderItems _id fst]. reflexivity. }
  split; [reflexivity|]. split; [reflexivity|].
  rewrite (items_of_new_order env req db Hinv Ho Hnd).
  assert (Hview : forall l : list (Doc OrderItem),
            map (fun d : Doc OrderItem =>
                   (oi_sku (fields d), oi_name (fields d), oi_unitPrice (fields d),
                    oi_quantity (fields d), oi_lineTotal (fields d))) l
            = map (fun f : OrderItem =>
                     (oi_sku f, oi_name f, oi_unitPrice f, oi_quantity f,
                      oi_lineTotal f)) (map fields l))
    by (intros l; by rewrite map_map).
  rewrite Hview, written_items_itemsDocs.
  unfold itemsDocs, itemsWithTotals. by rewrite !map_map.
Qed.

(** Witness of X11: scenario A on the empty store. *)
Lemma post_then_get_witness :
  created (post_orders Scenario.calm Scenario.reqA empty_store).1.1 = true /\
  (new_ObjectId Scenario.calm OrderCreate 0 < 2 ^ 96)%N /\
  items_belong_to_orders empty_store /\
  exists (s : string) (oid : ObjectId) (o : Stored Order) (items : list (Doc OrderItem)),
    (post_orders Scenario.calm Scenario.reqA empty_store).1.1 =
      Responded (mkResponse 201
        (JObj [("orderId", JStr s);
               ("grandTotal", json_number (grandTotal (st_fields o)));
               ("currency", JStr (currency (st_fields o)));
               ("status", JStr "CONFIRMED")])) /\
    get_order (mkGetEnv None None) s
        (post_orders Scenario.calm Scenario.reqA empty_store).1.2 =
      Responded (mkResponse 200
        (JObj (Order_fields_json (oid, o) ++
               [("items", JArr (map OrderItem_to_json items))]))) /\
    customerId (st_fields o) = co_customerId Scenario.reqA /\
    currency (st_fields o) = co_currency Scenario.reqA /\
    map (fun d : Doc OrderItem =>
           (oi_sku (fields d), oi_name (fields d), oi_unitPrice (fields d),
            oi_quantity (fields d), oi_lineTotal (fields d))) items
      ≡ₚ map (fun i => (sku i, name i, unitPrice i, quantity i,
                        round2 (unitPrice i * quantity i))) (co_items Scenario.reqA).
Proof.
  assert (H0 : items_belong_to_orders empty_store).
  { intros k i Hk. cbn in Hk. by rewrite lookup_empty in Hk. }
  split; [vm_compute; reflexivity|]. split; [cbn; lia|]. split; [exact H0|].
  apply (post_then_get Scenario.calm Scenario.reqA empty_store (mkGetEnv None None));
    [vm_compute; reflexivity|cbn; lia|exact H0|reflexivity|reflexivity].
Defined.

(** ** When an order is created *)

(** The schema of Order on the document of a request. *)
Lemma validate_Order_written env req :
  validate_Order (fields (written_order env req)) = true <->
  co_customerId req <> "" /\ co_currency req <> "" /\
  (0 <=? rounded_sum_of_line_totals (co_items req))%float = true.
Proof.
  unfold written_order, fields, mkDoc, validate_Order, required_string, number_min.
  cbn [snd st_fields customerId currency grandTotal].
  rewrite compute_grandTotal_rounded_sum.
  rewrite !andb_true_iff, !negb_true_iff, !String.eqb_neq. tauto.
Qed.

(** The schema of OrderItem on the documents of a request. *)
Lemma validate_OrderItem_written env req :
  forallb validate_OrderItem (map fields (written_items env req)) = true <->
  Forall (fun i => sku i <> "" /\ name i <> "" /\
                   (0 <=? unitPrice i)%float = true /\
                   (1 <=? quantity i)%float = true /\
                   (0 <=? round2 (unitPrice i * quantity i))%float = true)
         (co_items req).
Proof.
  rewrite written_items_itemsDocs. unfold itemsDocs, itemsWithTotals.
  rewrite map_map. induction (co_items req) as [|i items IH].
  - cbn. split; [constructor|done].
  - cbn [map forallb]. rewrite andb_true_iff, Forall_cons, IH.
    unfold validate_OrderItem, required_string, number_min.
    cbn [oi_sku oi_name oi_unitPrice oi_quantity oi_lineTotal item lineTotal].
    rewrite !andb_true_iff, !negb_true_iff, !String.eqb_neq.
    unfold round2. tauto.
Qed.

(** The ids of the documents [insertMany] builds. *)
Lemma imap_mkDoc_ids (ids : nat -> ObjectId) now (l : list OrderItem) :
  map _id (imap (fun k i => mkDoc (ids k) now i) l) = map ids (seq 0 (length l)).
Proof.
  revert ids. induction l as [|x l IH]; intros ids; [done|].
  cbn [imap length seq map]. f_equal.
  rewrite <- seq_shift, map_map. exact (IH (ids ∘ S)).
Qed.

Lemma written_items_ids env req :
  map _id (written_items env req)
  = map (new_ObjectId env OrderItemInsertMany) (seq 0 (length (co_items req))).
Proof.
  unfold written_items. rewrite imap_mkDoc_ids.
  unfold itemsDocs, itemsWithTotals. by rewrite !length_map.
Qed.

Lemma written_items_unused env req db :
  (forall d, d ∈ written_items env req -> orderItems db !! _id d = None) <->
  (forall k, k < length (co_items req) ->
     orderItems db !! new_ObjectId env OrderItemInsertMany k = None).
Proof.
  split.
  - intros H k Hk.
    assert (Hin : new_ObjectId env OrderItemInsertMany k ∈ map _id (written_items env req)).
    { rewrite written_items_ids. apply list_elem_of_fmap. exists k. split; [done|].
      apply elem_of_seq. lia. }
    apply list_elem_of_fmap in Hin as (d & -> & Hd). by apply H.
  - intros H d Hd.
    assert (Hin : _id d ∈ map _id (written_items env req))
      by (by apply list_elem_of_fmap_2).
    rewrite written_items_ids in Hin.
    apply list_elem_of_fmap in Hin as (k & -> & Hk%elem_of_seq). apply H. lia.
Qed.

(** X12. [POST /orders] is answered 201 exactly when the session opens, no
    store call is rejected, the request passes the schemas (non-empty
    customer and currency, non-negative grand total, and for every item a
    non-empty sku and name, a unit price of at least 0, a quantity of at
    least 1 and a non-negative line total), and the ids generated for the
    new documents are unused and distinct. *)
Theorem post_orders_created_iff env req db :
  created (post_orders env req db).1.1 = true <->
  (exists u, startSession env = Fulfilled u) /\
  (forall c, rejects env c = None) /\
  (co_customerId req <> "" /\ co_currency req <> "" /\
   (0 <=? rounded_sum_of_line_totals (co_items req))%float = true) /\
  Forall (fun i => sku i <> "" /\ name i <> "" /\
                   (0 <=? unitPrice i)%float = true /\
                   (1 <=? quantity i)%float = true /\
                   (0 <=? round2 (unitPrice i * quantity i))%float = true)
         (co_items req) /\
  orders db !! new_ObjectId env OrderCreate 0 = None /\
  outbox db !! new_ObjectId env OutboxEventCreate 0 = None /\
  NoDup (map (new_ObjectId env OrderItemInsertMany) (seq 0 (length (co_items req)))) /\
  (forall k, k < length (co_items req) ->
     orderItems db !! new_ObjectId env OrderItemInsertMany k = None).
Proof.
  rewrite <- validate_Order_written, <- validate_OrderItem_written,
    <- written_items_ids, <- (written_items_unused env req db).
  split.
  - intros Hc.
    destruct (post_orders_result env req db)
      as [[Hn _]|(_ & _ & Ho & He & Hnd & Hfresh & Vo & Vi & Hr & Hs)]; [congruence|].
    done.
  - intros ([u Hs] & Hr & Vo & Vi & Ho & He & Hnd & Hfresh).
    by apply (post_orders_succeeds env req db u).
Qed.

(** X13. A request that breaks a schema is never stored: with an empty
    customer or currency, or an item with an empty sku or name, a unit price
    that is not at least 0 or a quantity that is not at least 1 (NaN
    included), the request is not answered 201 and the store stays as it
    was. *)
Theorem invalid_input_not_stored env req db :
  co_customerId req = "" \/ co_currency req = "" \/
  (exists i, i ∈ co_items req /\
     (sku i = "" \/ name i = "" \/
      (0 <=? unitPrice i)%float = false \/ (1 <=? quantity i)%float = false)) ->
  created (post_orders env req db).1.1 = false /\
  (post_orders env req db).1.2 = db.
Proof.
  intros Hbad.
  destruct (post_orders_result env req db)
    as [?|(_ & _ & _ & _ & _ & _ & Vo & Vi & _)]; [done|].
  exfalso. apply validate_Order_written in Vo as (Hc & Hcur & _).
  rewrite validate_OrderItem_written, Forall_forall in Vi.
  destruct Hbad as [?|[?|(i & Hi & Hbad)]]; [done|done|].
  destruct (Vi i Hi) as (Hs & Hn & Hp & Hq & _).
  destruct Hbad as [?|[?|[?|?]]]; congruence.
Qed.

(** Witness of X13: a quantity of 0 in an environment where nothing fails. *)
Lemma invalid_input_not_stored_witness :
  let req := mkCreateOrder "customer-1" "INR" [mkItem "A1" "Widget" 10 0] in
  (exists i, i ∈ co_items req /\
     (sku i = "" \/ name i = "" \/
      (0 <=? unitPrice i)%float = false \/ (1 <=? quantity i)%float = false)) /\
  created (post_orders Scenario.calm req empty_store).1.1 = false /\
  (post_orders Scenario.calm req empty_store).1.2 = empty_store.
Proof.
  intros req.
  assert (Hbad : exists i, i ∈ co_items req /\
            (sku i = "" \/ name i = "" \/
             (0 <=? unitPrice i)%float = false \/ (1 <=? quantity i)%float = false)).
  { exists (mkItem "A1" "Widget" 10 0). split; [left|]. do 3 right. reflexivity. }
  split; [exact Hbad|].
  apply (invalid_input_not_stored Scenario.calm req empty_store). right; right. exact Hbad.
Defined.

(** Witness of X12: scenario A on the empty store is answered 201, and on
    the store it leaves the same ids are taken. *)
Lemma post_orders_created_iff_witness :
  created (post_orders Scenario.calm Scenario.reqA empty_store).1.1 = true /\
  orders empty_store !! new_ObjectId Scenario.calm OrderCreate 0 = None /\
  created (post_orders Scenario.calm Scenario.reqA Scenario.storeA).1.1 = false.
Proof.
  assert (Hc : created (post_orders Scenario.calm Scenario.reqA empty_store).1.1 = true)
    by (vm_compute; reflexivity).
  split; [exact Hc|]. split.
  - apply (proj1 (post_orders_created_iff Scenario.calm Scenario.reqA empty_store) Hc).
  - destruct (created (post_orders Scenario.calm Scenario.reqA Scenario.storeA).1.1)
      eqn:Hc'; [|reflexivity].
    apply (proj1 (post_orders_created_iff Scenario.calm Scenario.reqA Scenario.storeA))
      in Hc' as (_ & _ & _ & _ & Ho & _).
    vm_compute in Ho. discriminate Ho.
Defined.

(** ** Requests and ticks do not disturb each other *)

(** X14. A request never changes or removes a stored record, whatever its
    outcome: every Order, OrderItem and OutboxEvent stored before it is
    stored unchanged after it (an id that is already taken makes the request
    fail instead). *)
Theorem post_orders_keeps_records env req db :
  let db' := (post_orders env req db).1.2 in
  (forall k o, orders db !! k = Some o -> orders db' !! k = Some o) /\
  (forall k i, orderItems db !! k = Some i -> orderItems db' !! k = Some i) /\
  (forall k e, outbox db !! k = Some e -> outbox db' !! k = Some e).
Proof.
  intros db'. subst db'.
  destruct (post_orders_result env req db)
    as [[_ ->]|(_ & -> & Ho & He & _ & Hfresh & _)]; [done|].
  cbn [orders orderItems outbox]. split; [|split].
  - intros k o Hk. rewrite lookup_insert_ne; [done|]. congruence.
  - intros k i Hk. apply lookup_union_Some_raw. right. split; [|done].
    apply not_elem_of_list_to_map_1.
    intros (d & -> & Hd)%list_elem_of_fmap. specialize (Hfresh d Hd).
    unfold _id in Hfresh. rewrite Hk in Hfresh. discriminate Hfresh.
  - intros k e Hk. rewrite lookup_insert_ne; [done|]. congruence.
Qed.

(** Witness of X14: scenario A again on the store it left; the ids collide,
    the request fails, and the order stays. *)
Lemma post_orders_keeps_records_witness :
  let db' := (post_orders Scenario.calm Scenario.reqA Scenario.storeA).1.2 in
  exists o, orders Scenario.storeA !! 1%N = Some o /\ orders db' !! 1%N = Some o.
Proof.
  intros db'. eexists. split; [vm_compute; reflexivity|].
  apply (post_orders_keeps_records Scenario.calm Scenario.reqA Scenario.storeA).
  vm_compute; reflexivity.
Defined.

(** X15. The worker is invisible to [GET /orders/:id]: a tick, whatever the
    publisher and the store do during it, changes the answer to no id. *)
Theorem tick_invisible_to_get publisher env db genv s :
  get_order genv s (tick publisher env db).1 = get_order genv s db.
Proof.
  destruct (tick_keeps_collections publisher env db) as [Ho Hi].
  unfold get_order, Order_findById, OrderItem_find. by rewrite Ho, Hi.
Qed.
